(** * BIO attendance device: alignment, recognition and the offline ledger

  A shallow embedding of [core/alignment.py], [core/recognizer.py] and
  [device/database.py].  Python statements are written in a small
  state-and-control monad ([Py.M]) that knows about exceptions, [return]
  and [continue]; OpenCV, the two networks, the file system, SQLite and
  MySQL are the collaborators of the code and appear as explicit
  parameters or as an explicit store.

  Numbers: a float is its exact value or one of the three non-finite
  values.  The arithmetic of NumPy and OpenCV (the cast to float32, the
  forward pass, the normalisation, [np.dot]) belongs to the collaborators:
  its rounding and its order of summation are theirs, and no theorem
  depends on them.  The examples use the binary32 arithmetic of the
  Standard Library's IEEE 754 specification. *)

From Stdlib Require Import QArith ZArith List String Bool Lia.
From Stdlib Require Floats.SpecFloat.
From stdpp Require Import base tactics option list strings sorting gmap.

Local Open Scope string_scope.
Local Open Scope list_scope.
Local Open Scope nat_scope.

(** ** Python statements as a monad *)

Module Py.

(** The exception classes the three modules can meet; all derive from
    [Exception], so every [except Exception] clause catches them all. *)
Inductive exn : Set :=
| IndexError | TypeError | ValueError | AttributeError | OSError
| JSONDecodeError | cv2_error | sqlite3_Error | mysql_Error.

(** How a statement ends: normally with a value, by [return r], by
    [continue], or by raising. *)
Inductive outcome (R A : Type) : Type :=
| Val (a : A)
| Ret (r : R)
| Cont
| Exc (e : exn).
Arguments Val {R A} a.
Arguments Ret {R A} r.
Arguments Cont {R A}.
Arguments Exc {R A} e.

(** A statement over a store [S] inside a function returning [R].  The
    store survives an exception: what was appended or written before the
    raise stays. *)
Definition M (S R A : Type) : Type := S -> outcome R A * S.

Definition ret {S R A} (a : A) : M S R A := fun s => (Val a, s).

Definition bind {S R A B} (m : M S R A) (k : A -> M S R B) : M S R B :=
  fun s =>
    match m s with
    | (Val a, s') => k a s'
    | (Ret r, s') => (Ret r, s')
    | (Cont, s') => (Cont, s')
    | (Exc e, s') => (Exc e, s')
    end.

Definition raise {S R A} (e : exn) : M S R A := fun s => (Exc e, s).
Definition return_ {S R A} (r : R) : M S R A := fun s => (Ret r, s).
Definition continue {S R A} : M S R A := fun s => (Cont, s).
Definition pass {S R} : M S R unit := ret tt.

Definition get {S R} : M S R S := fun s => (Val s, s).
Definition put {S R} (s : S) : M S R unit := fun _ => (Val tt, s).
Definition modify {S R} (f : S -> S) : M S R unit := fun s => (Val tt, f s).

(** [try: body except Exception as e: handler e].  Only exceptions are
    caught; [return] and [continue] leave the block untouched. *)
Definition try_except {S R A} (body : M S R A) (handler : exn -> M S R A)
  : M S R A :=
  fun s =>
    match body s with
    | (Exc e, s') => handler e s'
    | o => o
    end.

(** [for x in l: body x].  [continue] ends the iteration, [return] and
    an exception end the loop. *)
Fixpoint for_each {S R X} (l : list X) (body : X -> M S R unit)
  : M S R unit :=
  match l with
  | [] => ret tt
  | x :: l' =>
      fun s =>
        match body x s with
        | (Val _, s') => for_each l' body s'
        | (Cont, s') => for_each l' body s'
        | (Ret r, s') => (Ret r, s')
        | (Exc e, s') => (Exc e, s')
        end
  end.

(** The result of a call: a value or an exception crossing the boundary. *)
Inductive result (A : Type) : Type :=
| Ok (a : A)
| Raise (e : exn).
Arguments Ok {A} a.
Arguments Raise {A} e.

(** Calling a collaborator whose answer is already known. *)
Definition call {S R A} (r : result A) : M S R A :=
  fun s => match r with Ok a => (Val a, s) | Raise e => (Exc e, s) end.

(** [def f(...): body].  Falling off the end returns [None], written
    [none] here. *)
Definition def {S R} (none : R) (body : M S R unit) (s : S)
  : result R * S :=
  match body s with
  | (Val _, s') => (Ok none, s')
  | (Ret r, s') => (Ok r, s')
  | (Cont, s') => (Ok none, s')
  | (Exc e, s') => (Raise e, s')
  end.

(** Calling a method that works on the same store. *)
Definition invoke {S R A} (f : S -> result A * S) : M S R A :=
  fun s =>
    match f s with
    | (Ok a, s') => (Val a, s')
    | (Raise e, s') => (Exc e, s')
    end.

(** [l[i]] on a sequence. *)
Definition index {S R A} (l : list A) (i : nat) : M S R A :=
  match l !! i with
  | Some a => ret a
  | None => raise IndexError
  end.

Declare Scope py_scope.
Delimit Scope py_scope with py.
Notation "x <- m ;; k" := (bind m (fun x => k))
  (at level 100, m at next level, k at level 200, right associativity)
  : py_scope.
Notation "m ;; k" := (bind m (fun _ => k))
  (at level 100, k at level 200, right associativity) : py_scope.
Notation "'when' c 'then' m ;; k" :=
  (bind (if c then m else ret tt) (fun _ => k))
  (at level 100, c at level 99, m at next level, k at level 200,
   right associativity) : py_scope.

End Py.

Import Py.
Local Open Scope py_scope.

(** ** NumPy values *)

Module Np.

(** A float: finite, or one of NaN, +inf, -inf. *)
Inductive float : Type :=
| Finite (q : Q)
| NaN
| PosInf
| NegInf.

Definition isfinite (x : float) : bool :=
  match x with Finite _ => true | _ => false end.

(** [np.all(np.isfinite(a))] on a two-dimensional array. *)
Definition all_isfinite (a : list (list float)) : bool :=
  forallb (forallb isfinite) a.

(** An image or blob: its shape and its flattened samples. *)
Record ndarray : Type := { shape : list nat; data : list Z }.

(** [a.size]: the product of the extents. *)
Definition size (a : ndarray) : nat := fold_right Nat.mul 1 (shape a).

(** [np.array(rows, dtype=np.float32)]: the rows must have one length;
    every entry is cast, and the cast keeps NaN and the infinities.  What
    it does to a finite double (rounding, overflow to an infinity) is
    [cast]. *)
Definition cast_float32 (cast : Q -> float) (x : float) : float :=
  match x with Finite q => cast q | _ => x end.

Definition rectangular (rows : list (list float)) : bool :=
  match rows with
  | [] => true
  | r :: rest => forallb (fun r' => Nat.eqb (length r') (length r)) rest
  end.

Definition array_float32 (cast : Q -> float) (rows : list (list float))
  : result (list (list float)) :=
  if rectangular rows then Ok (map (map (cast_float32 cast)) rows)
  else Raise ValueError.

Definition isnan (x : float) : bool :=
  match x with NaN => true | _ => false end.

(** [x <= y] and [x > y] on floats: a comparison with NaN is false. *)
Definition le (x y : float) : bool :=
  match x, y with
  | NaN, _ | _, NaN => false
  | NegInf, _ | _, PosInf => true
  | Finite a, Finite b => Qle_bool a b
  | _, _ => false
  end.

Definition gt (x y : float) : bool := le y x && negb (le x y).

(** An array of floats (an embedding, the gallery): its shape and its
    flattened values.  A 0-d array has the empty shape. *)
Record float_ndarray : Type := { fshape : list nat; fdata : list float }.

(** [a.size] *)
Definition fsize (a : float_ndarray) : nat := fold_right Nat.mul 1 (fshape a).

(** [len(a)]: the extent of the first axis; a 0-d array has none
    ("len() of unsized object"). *)
Definition len (a : float_ndarray) : result nat :=
  match fshape a with
  | [] => Raise TypeError
  | n :: _ => Ok n
  end.

End Np.

Import Np.

(** ** core/alignment.py *)

Module Alignment.

(** The parts of OpenCV and NumPy that [align] calls. *)
Record OpenCV : Type := {
  float32_of_double : Q -> float;
  (** [cv2.estimateAffinePartial2D(landmarks, reference_pts, RANSAC, 5.0)]:
      the 2x3 matrix, or [None] when no model is found. *)
  estimateAffinePartial2D :
    list (list float) -> list (list float) -> result (option (list (list float)));
  (** [cv2.warpAffine(image, tform, (w, h), INTER_LINEAR, BORDER_CONSTANT, 0)] *)
  warpAffine :
    ndarray -> list (list float) -> nat * nat -> result (option ndarray)
}.

Record StandardFaceAligner : Type := {
  desiredFaceWidth : nat;
  desiredFaceHeight : nat;
  reference_pts : list (list float)
}.

Definition pt (x y : Q) : list float := [Finite x; Finite y].

(** [StandardFaceAligner()] with its default arguments. *)
Definition aligner : StandardFaceAligner := {|
  desiredFaceWidth := 112;
  desiredFaceHeight := 112;
  reference_pts :=
    [ pt (382946 # 10000) (516963 # 10000);
      pt (735318 # 10000) (515014 # 10000);
      pt (560252 # 10000) (717366 # 10000);
      pt (415493 # 10000) (923655 # 10000);
      pt (707299 # 10000) (922041 # 10000) ]
|}.

(** The body of [align], inside its [try]. *)
Definition align_body (cv : OpenCV) (self : StandardFaceAligner)
    (image : option ndarray) (landmarks : option (list (list float)))
  : M unit (option ndarray) unit :=
  match image, landmarks with
  | Some image, Some landmarks =>
      when negb (Nat.eqb (length landmarks) 5) then return_ None ;;
      h <- index (shape image) 0 ;;
      small <- (if h <? 10 then ret true
                else (w <- index (shape image) 1 ;; ret (w <? 10))) ;;
      when (small : bool) then return_ None ;;
      landmarks <- call (array_float32 (float32_of_double cv) landmarks) ;;
      when negb (all_isfinite landmarks) then return_ None ;;
      tform <- call (estimateAffinePartial2D cv landmarks (reference_pts self)) ;;
      match tform with
      | None => return_ None
      | Some tform =>
          when negb (all_isfinite tform) then return_ None ;;
          let output_size := (desiredFaceWidth self, desiredFaceHeight self) in
          aligned_face <- call (warpAffine cv image tform output_size) ;;
          match aligned_face with
          | None => return_ None
          | Some aligned_face =>
              when (size aligned_face =? 0) then return_ None ;;
              return_ (Some aligned_face)
          end
      end
  | _, _ => return_ None
  end.

(** [StandardFaceAligner.align]: the aligned face, or [None]. *)
Definition align (cv : OpenCV) (self : StandardFaceAligner)
    (image : option ndarray) (landmarks : option (list (list float)))
  : result (option ndarray) :=
  fst (def None
         (try_except (align_body cv self image landmarks)
                     (fun _ => return_ None))
         tt).

End Alignment.

(** ** shared/config.py *)

Module Config.

Definition RECOGNITION_THRESHOLD : Q := 70 # 100.

End Config.

(** ** core/recognizer.py *)

Module Recognizer.

(** [np.argmax] on a one-dimensional array of floats: a left-to-right scan
    that stays where it is on [x <= best], so the first index of the
    maximum wins; a NaN is not [<=] anything, is taken as the maximum and
    ends the scan.  An empty array raises. *)
Fixpoint argmax_from (best_idx : nat) (best : float) (i : nat)
    (scores : list float) : nat :=
  match scores with
  | [] => best_idx
  | x :: rest =>
      if le x best then argmax_from best_idx best (S i) rest
      else if isnan x then i
      else argmax_from i x (S i) rest
  end.

Definition argmax (scores : list float) : result nat :=
  match scores with
  | [] => Raise ValueError
  | x :: rest => if isnan x then Ok 0 else Ok (argmax_from 0 x 1 rest)
  end.

(** What is on disk.  A file is missing, present but unreadable or
    unparsable (the load raises [e]), or holds a value.  [exists_] is
    [os.path.exists]. *)
Inductive file (A : Type) : Type :=
| Missing
| Corrupt (e : exn)
| Holds (a : A).
Arguments Missing {A}.
Arguments Corrupt {A} e.
Arguments Holds {A} a.

Definition exists_ {A} (f : file A) : bool :=
  match f with Missing => false | _ => true end.

(** [np.load(path)] and [json.load(open(path))]. *)
Definition load {A} (f : file A) : result A :=
  match f with
  | Missing => Raise OSError
  | Corrupt e => Raise e
  | Holds a => Ok a
  end.

Record FileSystem : Type := {
  yunet_path : file unit;
  mobilefacenet_path : file unit;
  embeddings_file : file float_ndarray;
  names_file : file (list string)
}.

(** The detector and the embedding network, with the part of their state
    the code sets. *)
Record FaceDetectorYN : Type := { input_size : nat * nat }.
Record Net : Type := { net_input : option ndarray }.

(** The OpenCV and NumPy calls of the recognizer.  [forward] is the forward
    pass on the blob last given to [setInput]; [normalize] is
    [cv2.normalize(embedding, None, alpha=1, beta=0, norm_type=NORM_L2)];
    [np_dot known e] is [np.dot(known, e.T).flatten()], the array of
    scores, or the exception of a shape mismatch. *)
Record OpenCV : Type := {
  for_alignment : Alignment.OpenCV;
  FaceDetectorYN_create : result FaceDetectorYN;
  readNetFromONNX : result Net;
  astype_int : float -> Z;
  setInputSize : nat * nat -> result unit;
  detect : ndarray -> result (option (list (list float)));
  blobFromImage : ndarray -> result (option ndarray);
  setInput : ndarray -> result unit;
  forward : ndarray -> result (option float_ndarray);
  normalize : float_ndarray -> result float_ndarray;
  np_dot : float_ndarray -> float_ndarray -> result (list float)
}.

(** The object.  [known_embeddings] is the array of the embeddings file and
    [known_names] the list of the names file.  Before anything is loaded
    [known_embeddings] is the empty Python list, of which the code only
    ever takes [len()]; it is written as the empty array of shape (0,). *)
Record FaceRecognizer : Type := {
  detector : option FaceDetectorYN;
  recognizer : option Net;
  known_embeddings : float_ndarray;
  known_names : list string
}.

(** [[]] as a value of [known_embeddings]. *)
Definition empty_list : float_ndarray := {| fshape := [0]; fdata := [] |}.

Definition set_detector (d : option FaceDetectorYN) (self : FaceRecognizer) :=
  {| detector := d; recognizer := recognizer self;
     known_embeddings := known_embeddings self;
     known_names := known_names self |}.
Definition set_recognizer (n : option Net) (self : FaceRecognizer) :=
  {| detector := detector self; recognizer := n;
     known_embeddings := known_embeddings self;
     known_names := known_names self |}.
Definition set_known_embeddings (e : float_ndarray) (self : FaceRecognizer) :=
  {| detector := detector self; recognizer := recognizer self;
     known_embeddings := e; known_names := known_names self |}.
Definition set_known_names (n : list string) (self : FaceRecognizer) :=
  {| detector := detector self; recognizer := recognizer self;
     known_embeddings := known_embeddings self; known_names := n |}.

(** [_load_models] *)
Definition _load_models (cv : OpenCV) (fs : FileSystem)
  : FaceRecognizer -> result unit * FaceRecognizer :=
  def tt
    (when negb (exists_ (yunet_path fs)) || negb (exists_ (mobilefacenet_path fs))
       then return_ tt ;;
     d <- call (FaceDetectorYN_create cv) ;;
     modify (set_detector (Some d)) ;;
     n <- call (readNetFromONNX cv) ;;
     modify (set_recognizer (Some n))).

(** [_load_database].  The log line at the end of the [try] evaluates
    [len(self.known_embeddings)]. *)
Definition _load_database (fs : FileSystem)
  : FaceRecognizer -> result unit * FaceRecognizer :=
  def tt
    (if exists_ (embeddings_file fs) && exists_ (names_file fs) then
       try_except
         (e <- call (load (embeddings_file fs)) ;;
          modify (set_known_embeddings e) ;;
          n <- call (load (names_file fs)) ;;
          modify (set_known_names n) ;;
          self <- get ;;
          call (len (known_embeddings self)) ;;
          pass)
         (fun _ =>
            modify (set_known_embeddings empty_list) ;;
            modify (set_known_names []))
     else pass).

(** [FaceRecognizer.__init__]: the object it leaves behind, and whether the
    constructor raised. *)
Definition __init__ (cv : OpenCV) (fs : FileSystem)
  : result unit * FaceRecognizer :=
  def tt
    (invoke (_load_models cv fs) ;;
     invoke (_load_database fs))
    {| detector := None; recognizer := None;
       known_embeddings := empty_list; known_names := [] |}.

(** [FaceRecognizer.reload].  The log line after the swap evaluates
    [len(self.known_embeddings)], still inside the [try]. *)
Definition reload (fs : FileSystem)
  : FaceRecognizer -> result bool * FaceRecognizer :=
  def false
    (try_except
       (if exists_ (embeddings_file fs) && exists_ (names_file fs) then
          new_embeddings <- call (load (embeddings_file fs)) ;;
          new_names <- call (load (names_file fs)) ;;
          modify (set_known_embeddings new_embeddings) ;;
          modify (set_known_names new_names) ;;
          self <- get ;;
          call (len (known_embeddings self)) ;;
          return_ true
        else pass)
       (fun _ => pass) ;;
     return_ false).

(** A bounding box [(x, y, w_box, h_box)]. *)
Definition box : Type := (Z * Z * Z * Z)%type.

(** The store of [recognize_faces]: the object and the two result lists. *)
Record locals : Type := {
  self : FaceRecognizer;
  face_locations : list box;
  face_names : list string
}.

Definition set_self (f : FaceRecognizer -> FaceRecognizer) (l : locals) :=
  {| self := f (self l); face_locations := face_locations l;
     face_names := face_names l |}.
Definition set_face_locations (f : list box -> list box) (l : locals) :=
  {| self := self l; face_locations := f (face_locations l);
     face_names := face_names l |}.
Definition set_face_names (f : list string -> list string) (l : locals) :=
  {| self := self l; face_locations := face_locations l;
     face_names := f (face_names l) |}.

(** [lst.append(x)] *)
Definition append {A} (x : A) (lst : list A) : list A := lst ++ [x].

Definition results : Type := (list box * list string)%type.

(** [face[4:14].reshape((5, 2))] *)
Definition reshape_5_2 (v : list float) : result (list (list float)) :=
  match v with
  | [a0; a1; a2; a3; a4; a5; a6; a7; a8; a9] =>
      Ok [[a0; a1]; [a2; a3]; [a4; a5]; [a6; a7]; [a8; a9]]
  | _ => Raise ValueError
  end.

(** [self.detector.setInputSize((w, h))] *)
Definition detector_setInputSize {R} (cv : OpenCV) (wh : nat * nat)
  : M locals R unit :=
  l <- get ;;
  match detector (self l) with
  | None => raise AttributeError
  | Some _ =>
      call (setInputSize cv wh) ;;
      modify (set_self (set_detector (Some {| input_size := wh |})))
  end.

(** [self.recognizer.setInput(blob)] *)
Definition recognizer_setInput {R} (cv : OpenCV) (blob : ndarray)
  : M locals R unit :=
  l <- get ;;
  match recognizer (self l) with
  | None => raise AttributeError
  | Some _ =>
      call (setInput cv blob) ;;
      modify (set_self (set_recognizer (Some {| net_input := Some blob |})))
  end.

(** [self.recognizer.forward()] *)
Definition recognizer_forward {R} (cv : OpenCV)
  : M locals R (option float_ndarray) :=
  l <- get ;;
  match recognizer (self l) with
  | None => raise AttributeError
  | Some net =>
      match net_input net with
      | None => raise cv2_error
      | Some blob => call (forward cv blob)
      end
  end.

(** Lines 172-179: compare with the known embeddings.  The value is the
    new value of [name].  [len()] raises on an array without a length.
    The constant 0.70 is the double next to 7/10, and no float lies
    between the two, so a score is above the one exactly when it is above
    the other. *)
Definition compare_with_known {S R} (cv : OpenCV) (self : FaceRecognizer)
    (embedding_norm : float_ndarray) (name : string) : M S R string :=
  n <- call (len (known_embeddings self)) ;;
  if 0 <? n then
    scores <- call (np_dot cv (known_embeddings self) embedding_norm) ;;
    best_match_idx <- call (argmax scores) ;;
    max_score <- index scores best_match_idx ;;
    if gt max_score (Finite Config.RECOGNITION_THRESHOLD)
    then index (known_names self) best_match_idx
    else ret name
  else ret name.

(** The body of the inner [try] (lines 135-179); its value is the value of
    [name] when the block is left at its end. *)
Definition identify (cv : OpenCV) (aligner : Alignment.StandardFaceAligner)
    (frame : ndarray) (landmarks : list (list float)) (name : string)
  : M locals results string :=
  face_img <- call (Alignment.align (for_alignment cv) aligner
                      (Some frame) (Some landmarks)) ;;
  match face_img with
  | None => ret name
  | Some face_img =>
      if size face_img =? 0 then ret name else
      rows <- index (shape face_img) 0 ;;
      wrong <- (if negb (rows =? 112) then ret true
                else (cols <- index (shape face_img) 1 ;;
                      ret (negb (cols =? 112)))) ;;
      when (wrong : bool) then (modify (set_face_names (append name)) ;; continue) ;;
      blob <- call (blobFromImage cv face_img) ;;
      when (match blob with None => true | Some b => size b =? 0 end)
        then (modify (set_face_names (append name)) ;; continue) ;;
      match blob with
      | None => ret name
      | Some blob =>
          recognizer_setInput cv blob ;;
          embedding <- recognizer_forward cv ;;
          when (match embedding with None => true | Some e => fsize e =? 0 end)
            then (modify (set_face_names (append name)) ;; continue) ;;
          match embedding with
          | None => ret name
          | Some embedding =>
              embedding_norm <- call (normalize cv embedding) ;;
              l <- get ;;
              compare_with_known cv (self l) embedding_norm name
          end
      end
  end.

(** The body of the loop over the detected faces (lines 117-190). *)
Definition process_face (cv : OpenCV)
    (aligner : option Alignment.StandardFaceAligner)
    (frame : ndarray) (face : list float) : M locals results unit :=
  try_except
    (let box := map (astype_int cv) (take 4 face) in
     x <- index box 0 ;;
     y <- index box 1 ;;
     w_box <- index box 2 ;;
     h_box <- index box 3 ;;
     when (w_box <=? 0)%Z || (h_box <=? 0)%Z then continue ;;
     landmarks <- call (reshape_5_2 (take 10 (drop 4 face))) ;;
     modify (set_face_locations (append (x, y, w_box, h_box))) ;;
     let name := "Unknown" in
     name <- match aligner with
             | Some aligner =>
                 try_except (identify cv aligner frame landmarks name)
                            (fun _ => ret name)
             | None => ret name
             end ;;
     modify (set_face_names (append name)))
    (fun _ => continue).

(** The body of [recognize_faces], inside its [try]. *)
Definition recognize_faces_body (cv : OpenCV)
    (aligner : option Alignment.StandardFaceAligner)
    (frame : option ndarray) : M locals results unit :=
  match frame with
  | None => return_ ([], [])
  | Some frame =>
      when (size frame =? 0) then return_ ([], []) ;;
      l <- get ;;
      when (match detector (self l), recognizer (self l) with
            | Some _, Some _ => false
            | _, _ => true
            end) then return_ ([], []) ;;
      match shape frame with
      | h :: w :: _ =>
          when (h <? 10) || (w <? 10) then return_ ([], []) ;;
          detector_setInputSize cv (w, h) ;;
          faces <- call (detect cv frame) ;;
          modify (set_face_locations (fun _ => [])) ;;
          modify (set_face_names (fun _ => [])) ;;
          match faces with
          | Some faces =>
              if 0 <? length faces
              then for_each faces (process_face cv aligner frame)
              else pass
          | None => pass
          end ;;
          l <- get ;;
          return_ (face_locations l, face_names l)
      | _ => raise ValueError
      end
  end.

(** [FaceRecognizer.recognize_faces]: the two lists, and the object after
    the call. *)
Definition recognize_faces (cv : OpenCV)
    (aligner : option Alignment.StandardFaceAligner)
    (frame : option ndarray) (self0 : FaceRecognizer)
  : result results * FaceRecognizer :=
  let '(r, l) :=
    def ([], [])
      (try_except (recognize_faces_body cv aligner frame)
                  (fun _ => return_ ([], [])))
      {| self := self0; face_locations := []; face_names := [] |} in
  (r, self l).

End Recognizer.

(** ** device/database.py *)

Module Database.

(** A row of [local_attendance]. *)
Record attendance : Type := {
  id : Z;
  timestamp : Q;
  device_id : string;
  name : string;
  synced : bool
}.

(** A row of the central [attendance_log]. *)
Record log_row : Type := {
  log_timestamp : string;
  log_device_id : string;
  log_name : string;
  log_synced : bool
}.

(** The calls made to the two stores, with whether they succeeded. *)
Inductive query : Type :=
| SqliteSelect
| SqliteInsert (r : attendance)
| SqliteUpdate (ids : list Z)
| MysqlConnect
| MysqlInsert (r : log_row)
| MysqlCommit
| MysqlClose.

Inductive event : Type := Called (q : query) (ok : bool).

(** The two stores.  [local_attendance] is the SQLite table in rowid order
    (the order of a table scan); [sqlite_sequence] is the AUTOINCREMENT
    counter; [attendance_log] holds the committed rows of the central
    table; [history] lists the calls made so far. *)
Record world : Type := {
  local_attendance : list attendance;
  sqlite_sequence : Z;
  attendance_log : list log_row;
  history : list event
}.

(** What the surroundings do during one call: which store operations fail,
    what the clock reads, and how a timestamp prints
    ([datetime.fromtimestamp(ts).strftime(...)], which raises on a value
    outside the range of [datetime]). *)
Record environment : Type := {
  sqlite_read_ok : bool;
  sqlite_write_ok : bool;
  mysql_connect_ok : bool;
  mysql_insert_ok : log_row -> bool;
  mysql_commit_ok : bool;
  time_time : Q;
  strftime : Q -> result string
}.

Definition set_local (f : list attendance -> list attendance) (w : world) :=
  {| local_attendance := f (local_attendance w);
     sqlite_sequence := sqlite_sequence w;
     attendance_log := attendance_log w; history := history w |}.
Definition set_sequence (n : Z) (w : world) :=
  {| local_attendance := local_attendance w; sqlite_sequence := n;
     attendance_log := attendance_log w; history := history w |}.
Definition set_log (f : list log_row -> list log_row) (w : world) :=
  {| local_attendance := local_attendance w;
     sqlite_sequence := sqlite_sequence w;
     attendance_log := f (attendance_log w); history := history w |}.
Definition record_event (e : event) (w : world) :=
  {| local_attendance := local_attendance w;
     sqlite_sequence := sqlite_sequence w;
     attendance_log := attendance_log w; history := history w ++ [e] |}.

Definition set_synced (b : bool) (r : attendance) : attendance :=
  {| id := id r; timestamp := timestamp r; device_id := device_id r;
     name := name r; synced := b |}.

(** The store of a method: the two databases and the local variables of
    [sync_to_mysql].  [m_conn] is [None] while no connection is open, and
    otherwise holds the rows inserted on the connection and not yet
    committed. *)
Record locals : Type := {
  db : world;
  m_conn : option (list log_row);
  synced_ids : list Z
}.

Definition on_db (f : world -> world) (l : locals) : locals :=
  {| db := f (db l); m_conn := m_conn l; synced_ids := synced_ids l |}.
Definition set_m_conn (c : option (list log_row)) (l : locals) : locals :=
  {| db := db l; m_conn := c; synced_ids := synced_ids l |}.
Definition set_synced_ids (f : list Z -> list Z) (l : locals) : locals :=
  {| db := db l; m_conn := m_conn l; synced_ids := f (synced_ids l) |}.

(** [INSERT INTO local_attendance (timestamp, device_id, name, synced)
    VALUES (?, ?, ?, 0)] followed by [commit]: one transaction. *)
Definition sqlite_insert {R} (env : environment)
    (ts : Q) (dev nm : string) : M locals R unit :=
  l <- get ;;
  let r := {| id := sqlite_sequence (db l) + 1; timestamp := ts;
              device_id := dev; name := nm; synced := false |} in
  modify (on_db (record_event (Called (SqliteInsert r) (sqlite_write_ok env)))) ;;
  if sqlite_write_ok env then
    modify (on_db (set_local (fun t => t ++ [r]))) ;;
    modify (on_db (set_sequence (id r)))
  else raise sqlite3_Error.

(** [SELECT id, timestamp, device_id, name FROM local_attendance
    WHERE synced = 0 LIMIT 50].  The statement has no ORDER BY; SQLite
    answers it by scanning the table, which visits the rows by ascending
    rowid, and stops after 50 matches. *)
Definition sqlite_select_unsynced {R} (env : environment)
  : M locals R (list attendance) :=
  modify (on_db (record_event (Called SqliteSelect (sqlite_read_ok env)))) ;;
  if sqlite_read_ok env then
    l <- get ;;
    ret (take 50 (filter (fun r => synced r = false) (local_attendance (db l))))
  else raise sqlite3_Error.

(** [executemany("UPDATE local_attendance SET synced = 1 WHERE id = ?", ids)]
    followed by [commit]: one transaction. *)
Definition sqlite_mark_synced {R} (env : environment) (ids : list Z)
  : M locals R unit :=
  modify (on_db (record_event (Called (SqliteUpdate ids) (sqlite_write_ok env)))) ;;
  if sqlite_write_ok env then
    modify (on_db (set_local
      (map (fun r => if bool_decide (id r ∈ ids) then set_synced true r else r))))
  else raise sqlite3_Error.

(** [mysql.connector.connect(..., connection_timeout=2)] *)
Definition mysql_connect {R} (env : environment) : M locals R unit :=
  modify (on_db (record_event (Called MysqlConnect (mysql_connect_ok env)))) ;;
  if mysql_connect_ok env then modify (set_m_conn (Some []))
  else raise mysql_Error.

(** [m_cursor.execute("INSERT INTO attendance_log ... VALUES (%s, %s, %s, 1)")] *)
Definition mysql_insert {R} (env : environment) (dt dev nm : string)
  : M locals R unit :=
  let r := {| log_timestamp := dt; log_device_id := dev; log_name := nm;
              log_synced := true |} in
  l <- get ;;
  match m_conn l with
  | None =>
      modify (on_db (record_event (Called (MysqlInsert r) false))) ;;
      raise mysql_Error
  | Some pending =>
      modify (on_db (record_event (Called (MysqlInsert r) (mysql_insert_ok env r)))) ;;
      if mysql_insert_ok env r
      then modify (set_m_conn (Some (pending ++ [r])))
      else raise mysql_Error
  end.

(** [m_conn.commit()] *)
Definition mysql_commit {R} (env : environment) : M locals R unit :=
  l <- get ;;
  match m_conn l with
  | None =>
      modify (on_db (record_event (Called MysqlCommit false))) ;;
      raise mysql_Error
  | Some pending =>
      modify (on_db (record_event (Called MysqlCommit (mysql_commit_ok env)))) ;;
      if mysql_commit_ok env then
        modify (on_db (set_log (fun t => t ++ pending))) ;;
        modify (set_m_conn (Some []))
      else raise mysql_Error
  end.

(** [m_conn.close()]: what was not committed is rolled back. *)
Definition mysql_close {R} : M locals R unit :=
  modify (on_db (record_event (Called MysqlClose true))) ;;
  modify (set_m_conn None).

(** [LocalDatabase.log_attendance] *)
Definition log_attendance (env : environment) (device_id name : string)
    (w : world) : result bool * world :=
  let '(r, l) :=
    def false
      (try_except
         (let timestamp := time_time env in
          sqlite_insert env timestamp device_id name ;;
          return_ true)
         (fun _ => return_ false))
      {| db := w; m_conn := None; synced_ids := [] |} in
  (r, db l).

(** The upload loop of [sync_to_mysql] (lines 97-107). *)
Definition upload_row (env : environment) (row : attendance)
  : M locals unit unit :=
  dt <- call (strftime env (timestamp row)) ;;
  mysql_insert env dt (device_id row) (name row) ;;
  modify (set_synced_ids (fun ids => ids ++ [id row])).

(** [LocalDatabase.sync_to_mysql] *)
Definition sync_to_mysql (env : environment) (w : world)
  : result unit * world :=
  let '(r, l) :=
    def tt
      (records <- try_except (sqlite_select_unsynced env)
                             (fun _ => return_ tt) ;;
       when (match records with [] => true | _ => false end) then return_ tt ;;
       modify (set_m_conn None) ;;
       try_except (mysql_connect env) (fun _ => return_ tt) ;;
       try_except
         (modify (set_synced_ids (fun _ => [])) ;;
          for_each records (upload_row env) ;;
          mysql_commit env ;;
          mysql_close ;;
          l <- get ;;
          when (match synced_ids l with [] => false | _ => true end)
            then sqlite_mark_synced env (synced_ids l) ;;
          pass)
         (fun _ => mysql_close))
      {| db := w; m_conn := None; synced_ids := [] |} in
  (r, db l).

End Database.

(** * What the properties speak about *)

(** ** Preconditions of [align] *)

(** Some landmark coordinate is NaN or infinite. *)
Definition has_non_finite (rows : list (list float)) : Prop :=
  exists row x, row ∈ rows /\ x ∈ row /\ isfinite x = false.

Definition non_finite_landmarks (landmarks : option (list (list float))) : Prop :=
  match landmarks with
  | Some rows => has_non_finite rows
  | None => False
  end.

(** The extent of an image along axis [i]; an axis the array does not have
    has extent 0. *)
Definition extent (a : ndarray) (i : nat) : nat := nth i (shape a) 0.

(** The image is absent, or has fewer than 10 rows or fewer than 10
    columns. *)
Definition image_too_small (image : option ndarray) : Prop :=
  match image with
  | Some a => extent a 0 < 10 \/ extent a 1 < 10
  | None => True
  end.

(** There are not exactly 5 landmarks. *)
Definition wrong_landmark_count (landmarks : option (list (list float))) : Prop :=
  match landmarks with
  | Some rows => length rows <> 5
  | None => True
  end.

(** A stand-in for OpenCV in the examples: the estimated transform is the
    identity, the warp delivers a blank image of the requested size. *)
Definition example_alignment_cv : Alignment.OpenCV := {|
  Alignment.float32_of_double := Finite;
  Alignment.estimateAffinePartial2D := fun _ _ =>
    Ok (Some [[Finite 1; Finite 0; Finite 0]; [Finite 0; Finite 1; Finite 0]]);
  Alignment.warpAffine := fun _ _ '(w, h) =>
    Ok (Some {| shape := [h; w; 3]; data := [] |})
|}.

(** ** The gallery on disk *)

(** Reading the embedding array or the name list fails: the file is
    missing, unreadable or does not parse. *)
Definition read_failure (fs : Recognizer.FileSystem) : Prop :=
  (exists e, Recognizer.load (Recognizer.embeddings_file fs) = Raise e)
  \/ (exists e, Recognizer.load (Recognizer.names_file fs) = Raise e).

(** A model asset is missing. *)
Definition model_missing (fs : Recognizer.FileSystem) : Prop :=
  Recognizer.yunet_path fs = Recognizer.Missing
  \/ Recognizer.mobilefacenet_path fs = Recognizer.Missing.

(** ** The matcher *)

(** The order of the extended reals on the scores; NaN stands in no
    relation to anything. *)
Definition at_most (x y : float) : Prop :=
  match x, y with
  | Finite a, Finite b => (a <= b)%Q
  | NegInf, (Finite _ | PosInf | NegInf) => True
  | (Finite _ | PosInf), PosInf => True
  | _, _ => False
  end.

Definition less (x y : float) : Prop := at_most x y /\ ~ at_most y x.

(** [i] is the first index at which [scores] takes its maximum [m]. *)
Definition first_maximum (scores : list float) (i : nat) (m : float) : Prop :=
  scores !! i = Some m
  /\ (forall j x, scores !! j = Some x -> at_most x m)
  /\ (forall j x, (j < i)%nat -> scores !! j = Some x -> less x m).

(** The gallery has [n] entries. *)
Definition gallery_size (self : Recognizer.FaceRecognizer) (n : nat) : Prop :=
  len (Recognizer.known_embeddings self) = Ok n.

(** The gallery is not empty, names and embeddings are parallel, and
    [scores] holds one score for each embedding. *)
Definition gallery_matches (self : Recognizer.FaceRecognizer)
    (scores : list float) : Prop :=
  scores <> []
  /\ gallery_size self (length scores)
  /\ length (Recognizer.known_names self) = length scores.

(** No score is NaN. *)
Definition comparable (scores : list float) : Prop :=
  Forall (fun x => x <> NaN) scores.

(** ** The ledger *)

(** The unsynced rows of the local table, oldest first. *)
Definition unsynced (w : Database.world) : list Database.attendance :=
  filter (fun r => Database.synced r = false) (Database.local_attendance w).

(** The central row a local row is uploaded as, when its timestamp
    prints. *)
Definition central_row (env : Database.environment) (r : Database.attendance)
  : option Database.log_row :=
  match Database.strftime env (Database.timestamp r) with
  | Ok dt => Some {| Database.log_timestamp := dt;
                     Database.log_device_id := Database.device_id r;
                     Database.log_name := Database.name r;
                     Database.log_synced := true |}
  | Raise _ => None
  end.

(** The central store accepts the upload of [r]. *)
Definition accepted (env : Database.environment) (r : Database.attendance)
  : Prop :=
  exists row, central_row env r = Some row
              /\ Database.mysql_insert_ok env row = true.

(** The calls made to the central store, among the events [h]. *)
Definition is_central (e : Database.event) : bool :=
  match e with
  | Database.Called Database.MysqlConnect _
  | Database.Called (Database.MysqlInsert _) _
  | Database.Called Database.MysqlCommit _
  | Database.Called Database.MysqlClose _ => true
  | _ => false
  end.

(** The rows whose central insert succeeded, among the events [h]. *)
Definition inserted (h : list Database.event) : list Database.log_row :=
  omap (fun e => match e with
                 | Database.Called (Database.MysqlInsert r) true => Some r
                 | _ => None
                 end) h.

(** An environment for the examples: a timestamp prints as a fixed
    string. *)
Definition example_env (sqlite mysql : bool) : Database.environment := {|
  Database.sqlite_read_ok := sqlite;
  Database.sqlite_write_ok := sqlite;
  Database.mysql_connect_ok := mysql;
  Database.mysql_insert_ok := fun _ => mysql;
  Database.mysql_commit_ok := mysql;
  Database.time_time := 1762176000;
  Database.strftime := fun _ => Ok "2025-11-03 13:20:00"
|}.

(** An empty ledger and an empty central table. *)
Definition empty_world : Database.world := {|
  Database.local_attendance := [];
  Database.sqlite_sequence := 0;
  Database.attendance_log := [];
  Database.history := []
|}.

(** The ids of the local table increase along the table and stay below the
    AUTOINCREMENT counter: the order of a table scan is the order of
    insertion. *)
Definition ledger_ordered (w : Database.world) : Prop :=
  StronglySorted Z.lt (map Database.id (Database.local_attendance w))
  /\ Forall (fun i => (i <= Database.sqlite_sequence w)%Z)
       (map Database.id (Database.local_attendance w)).

(** The ledgers the two methods can produce from an empty one. *)
Inductive reachable : Database.world -> Prop :=
| reachable_empty : reachable empty_world
| reachable_log env device_id name w :
    reachable w ->
    reachable (snd (Database.log_attendance env device_id name w))
| reachable_sync env w :
    reachable w ->
    reachable (snd (Database.sync_to_mysql env w)).

(** ** The per-frame pipeline *)

(** What a face is processed against: the gallery, and whether a network is
    loaded.  The lists built so far and the network's current input are not
    part of it. *)
Definition same_setting (l1 l2 : Recognizer.locals) : Prop :=
  Recognizer.known_embeddings (Recognizer.self l1)
  = Recognizer.known_embeddings (Recognizer.self l2)
  /\ Recognizer.known_names (Recognizer.self l1)
     = Recognizer.known_names (Recognizer.self l2)
  /\ (Recognizer.recognizer (Recognizer.self l1) = None
      <-> Recognizer.recognizer (Recognizer.self l2) = None).

(** The same store with the two result lists emptied. *)
Definition fresh (l : Recognizer.locals) : Recognizer.locals :=
  {| Recognizer.self := Recognizer.self l;
     Recognizer.face_locations := [];
     Recognizer.face_names := [] |}.

(** What one detected face contributes when processed on its own: a box
    with its name, or nothing. *)
Definition face_result (cv : Recognizer.OpenCV)
    (aligner : option Alignment.StandardFaceAligner) (frame : ndarray)
    (l : Recognizer.locals) (face : list float)
  : option (Recognizer.box * string) :=
  let l' := snd (Recognizer.process_face cv aligner frame face (fresh l)) in
  match Recognizer.face_locations l', Recognizer.face_names l' with
  | [b], [n] => Some (b, n)
  | _, _ => None
  end.

(** The reports of a list of faces, each processed on its own, in
    detection order. *)
Definition face_results (cv : Recognizer.OpenCV)
    (aligner : option Alignment.StandardFaceAligner) (frame : ndarray)
    (l : Recognizer.locals) (faces : list (list float))
  : list (Recognizer.box * string) :=
  omap (face_result cv aligner frame l) faces.

(** A detection the loop keeps: its box has positive width and height and
    it carries ten landmark coordinates. *)
Definition kept_detection (cv : Recognizer.OpenCV) (face : list float)
    (b : Recognizer.box) (landmarks : list (list float)) : Prop :=
  exists x y w_box h_box,
    map (Recognizer.astype_int cv) (take 4 face) = [x; y; w_box; h_box]
    /\ (0 < w_box)%Z /\ (0 < h_box)%Z
    /\ b = (x, y, w_box, h_box)
    /\ Recognizer.reshape_5_2 (take 10 (drop 4 face)) = Ok landmarks.

(** A step of the per-face pipeline fails: alignment gives no face, a
    validation of the aligned face, the blob or the embedding rejects it
    (the block is left by [continue]), or some step raises. *)
Definition step_fails (cv : Recognizer.OpenCV)
    (aligner : Alignment.StandardFaceAligner) (frame : ndarray)
    (landmarks : list (list float)) (l : Recognizer.locals) : Prop :=
  Alignment.align (Recognizer.for_alignment cv) aligner
    (Some frame) (Some landmarks) = Ok None
  \/ fst (Recognizer.identify cv aligner frame landmarks "Unknown" l) = Cont
  \/ exists e,
      fst (Recognizer.identify cv aligner frame landmarks "Unknown" l) = Exc e.

(** The name a kept face is given: what the inner block ends with, or
    "Unknown" when it does not end with a name or there is no aligner. *)
Definition face_name (cv : Recognizer.OpenCV)
    (aligner : option Alignment.StandardFaceAligner) (frame : ndarray)
    (landmarks : list (list float)) (l : Recognizer.locals) : string :=
  match aligner with
  | Some aligner =>
      match fst (Recognizer.identify cv aligner frame landmarks "Unknown" l) with
      | Val name => name
      | _ => "Unknown"
      end
  | None => "Unknown"
  end.

(** What the inner block of the loop does to the store, given how it ends:
    it never returns from the function, it never touches the locations, and
    it adds a name (the one it was given) exactly when it ends by
    [continue]. *)
Definition block_effect (name : string) (l l' : Recognizer.locals)
    (o : outcome Recognizer.results string) : Prop :=
  same_setting l l'
  /\ Recognizer.face_locations l' = Recognizer.face_locations l
  /\ Recognizer.face_names l'
     = Recognizer.face_names l ++ match o with Cont => [name] | _ => [] end
  /\ (forall r, o <> Ret r).

(** One face adds [r] to the two lists: nothing, or one box and one
    name. *)
Definition appended (r : option (Recognizer.box * string))
    (l l' : Recognizer.locals) : Prop :=
  same_setting l l'
  /\ Recognizer.face_locations l'
     = Recognizer.face_locations l ++ map fst (option_list r)
  /\ Recognizer.face_names l'
     = Recognizer.face_names l ++ map snd (option_list r).

(** ** Values for the examples *)

(** [astype(int)] as truncation toward zero; a non-finite value becomes the
    least 64-bit integer. *)
Definition truncate (x : float) : Z :=
  match x with
  | Finite q => Z.quot (Qnum q) (Z.pos (Qden q))
  | _ => (- 2 ^ 63)%Z
  end.

(** A detection row: box, five landmarks, score. *)
Definition detection (x y w h : Q) (landmarks : list float) (score : Q)
  : list float :=
  [Finite x; Finite y; Finite w; Finite h] ++ landmarks ++ [Finite score].

Definition good_landmarks : list float :=
  [Finite 38; Finite 52; Finite 74; Finite 51; Finite 56; Finite 72;
   Finite 42; Finite 92; Finite 71; Finite 92].

Definition bad_landmarks : list float :=
  [Finite 38; Finite 52; NaN; Finite 51; Finite 56; Finite 72;
   Finite 42; Finite 92; Finite 71; Finite 92].

Definition example_frame : ndarray := {| shape := [200; 200; 3]; data := [] |}.

(** A two-dimensional array given by its rows. *)
Definition array2 (rows : list (list float)) : float_ndarray :=
  {| fshape := [length rows; length (hd [] rows)];
     fdata := List.concat rows |}.

(** A float as a binary32 value: the quotient, in binary32, of its
    numerator and its denominator.  And back, exactly. *)
Definition binary32_of_Z (z : Z) : SpecFloat.spec_float :=
  SpecFloat.binary_normalize 24 128 z 0 false.

Definition binary32_of (x : float) : SpecFloat.spec_float :=
  match x with
  | Finite q =>
      SpecFloat.SFdiv 24 128 (binary32_of_Z (Qnum q))
        (binary32_of_Z (Z.pos (Qden q)))
  | NaN => SpecFloat.S754_nan
  | PosInf => SpecFloat.S754_infinity false
  | NegInf => SpecFloat.S754_infinity true
  end.

Definition float_of_binary32 (x : SpecFloat.spec_float) : float :=
  match x with
  | SpecFloat.S754_zero _ => Finite 0
  | SpecFloat.S754_infinity s => if s then NegInf else PosInf
  | SpecFloat.S754_nan => NaN
  | SpecFloat.S754_finite s m e =>
      Finite (Qred (inject_Z (if s then Z.neg m else Z.pos m) * Qpower 2 e))
  end.

(** A dot product in binary32: every product and every partial sum is
    rounded to nearest, ties to even. *)
Definition binary32_dot (u v : list float) : float :=
  float_of_binary32
    (fold_left
       (fun acc '(a, b) =>
          SpecFloat.SFadd 24 128 acc
            (SpecFloat.SFmul 24 128 (binary32_of a) (binary32_of b)))
       (zip u v) (SpecFloat.S754_zero false)).

Fixpoint rows_of (n d : nat) (values : list float) : list (list float) :=
  match n with
  | 0 => []
  | S n' => take d values :: rows_of n' d (drop d values)
  end.

(** [np.dot(known, e.T).flatten()] for an N x D gallery and a 1 x D
    embedding, in binary32. *)
Definition binary32_np_dot (known e : float_ndarray) : result (list float) :=
  match fshape known, fshape e with
  | [n; d], [1; d'] =>
      if d =? d'
      then Ok (map (fun row => binary32_dot row (fdata e))
                 (rows_of n d (fdata known)))
      else Raise ValueError
  | _, _ => Raise ValueError
  end.

(** A stand-in for OpenCV and the two networks: the detector finds three
    faces, the second with a NaN landmark and the third with an empty box;
    the network gives every face the embedding (3, 4), which normalises to
    (3/5, 4/5); the scores are computed in binary32. *)
Definition example_cv : Recognizer.OpenCV := {|
  Recognizer.for_alignment := example_alignment_cv;
  Recognizer.FaceDetectorYN_create := Ok {| Recognizer.input_size := (320, 320) |};
  Recognizer.readNetFromONNX := Ok {| Recognizer.net_input := None |};
  Recognizer.astype_int := truncate;
  Recognizer.setInputSize := fun _ => Ok tt;
  Recognizer.detect := fun _ =>
    Ok (Some [detection 10 20 50 60 good_landmarks (9 # 10);
              detection 100 20 40 40 bad_landmarks (8 # 10);
              detection 150 150 0 30 good_landmarks (7 # 10)]);
  Recognizer.blobFromImage := fun img =>
    Ok (Some {| shape := [1; 3; 112; 112]; data := data img |});
  Recognizer.setInput := fun _ => Ok tt;
  Recognizer.forward := fun _ => Ok (Some (array2 [[Finite 3; Finite 4]]));
  Recognizer.normalize := fun _ =>
    Ok (array2 [[Finite (3 # 5); Finite (4 # 5)]]);
  Recognizer.np_dot := binary32_np_dot
|}.

(** A recognizer with both models loaded and a gallery of three; the first
    two entries tie on every query. *)
Definition example_recognizer : Recognizer.FaceRecognizer := {|
  Recognizer.detector := Some {| Recognizer.input_size := (320, 320) |};
  Recognizer.recognizer := Some {| Recognizer.net_input := None |};
  Recognizer.known_embeddings :=
    array2 [[Finite (3 # 5); Finite (4 # 5)];
            [Finite (3 # 5); Finite (4 # 5)];
            [Finite 1; Finite 0]];
  Recognizer.known_names := ["Alice"; "Bob"; "Carol"]
|}.

(** A gallery of two whose exact dot products with the query (1, 2^-26)
    differ, 3/4 and 3/4 + 2^-26, and whose binary32 scores tie at 3/4. *)
Definition rounding_tie : Recognizer.FaceRecognizer := {|
  Recognizer.detector := None;
  Recognizer.recognizer := None;
  Recognizer.known_embeddings :=
    array2 [[Finite (3 # 4); Finite 0]; [Finite (3 # 4); Finite 1]];
  Recognizer.known_names := ["Alice"; "Bob"]
|}.

Definition rounding_tie_query : float_ndarray :=
  array2 [[Finite 1; Finite (1 # 67108864)]].

Definition example_locals : Recognizer.locals := {|
  Recognizer.self := example_recognizer;
  Recognizer.face_locations := [];
  Recognizer.face_names := []
|}.

(** The ledger after ("device-A", "Alice") and ("device-A", "Bob") were
    logged with the central store out of reach. *)
Definition two_logged : Database.world :=
  snd (Database.log_attendance (example_env true false) "device-A" "Bob"
         (snd (Database.log_attendance (example_env true false)
                 "device-A" "Alice" empty_world))).

(** ** JSON values, as [json.load] returns them *)

Module Json.

#[warnings="-register-all"] Inductive json : Type :=
| JNull
| JBool (b : bool)
| JNumber (q : Q)
| JString (s : string)
| JArray (items : list json)
| JObject (members : gmap string json).

(** [key in s] on a string: [key] occurs in [s]. *)
Definition occurs_in (key s : string) : bool :=
  match String.index 0 key s with Some _ => true | None => false end.

(** [key in items] on a list: some item equals the string [key]. *)
Definition is_item (key : string) (items : list json) : bool :=
  existsb (fun x => match x with JString s => String.eqb s key | _ => false end)
          items.

End Json.

Import Json.

(** ** shared/config.py: the settings and the local override *)

Module LocalConfig.

(** The settings of the module that do not depend on where it is installed.
    The six a local file can replace hold whatever JSON value the file
    gives them. *)
Record settings : Type := {
  SERVER_IP : string;
  SERVER_PORT : Z;
  API_BASE_URL : string;
  DEVICE_ID : json;
  MYSQL_HOST : json;
  MYSQL_USER : json;
  MYSQL_PASSWORD : json;
  MYSQL_DB : json;
  MYSQL_PORT : Z;
  MQTT_BROKER : json;
  MQTT_PORT : Z;
  MQTT_TOPIC : string;
  CAMERA_INDEX : Z;
  DETECTION_THRESHOLD : Q;
  RECOGNITION_THRESHOLD : Q;
  VERIFICATION_FRAMES : Z
}.

(** The values assigned before the override (lines 10-46). *)
Definition defaults : settings := {|
  SERVER_IP := "127.0.0.1";
  SERVER_PORT := 8000;
  API_BASE_URL := "http://127.0.0.1:8000/api";
  DEVICE_ID := JString "cm4_device_001";
  MYSQL_HOST := JString "127.0.0.1";
  MYSQL_USER := JString "root";
  MYSQL_PASSWORD := JString "Atharv@123";
  MYSQL_DB := JString "bio_attendance";
  MYSQL_PORT := 3306;
  MQTT_BROKER := JString "broker.emqx.io";
  MQTT_PORT := 1883;
  MQTT_TOPIC := "attendance/updates";
  CAMERA_INDEX := 0;
  DETECTION_THRESHOLD := 6 # 10;
  RECOGNITION_THRESHOLD := Config.RECOGNITION_THRESHOLD;
  VERIFICATION_FRAMES := 5
|}.

Definition set_MYSQL_HOST (v : json) (c : settings) : settings :=
  {| SERVER_IP := SERVER_IP c; SERVER_PORT := SERVER_PORT c;
     API_BASE_URL := API_BASE_URL c; DEVICE_ID := DEVICE_ID c;
     MYSQL_HOST := v; MYSQL_USER := MYSQL_USER c;
     MYSQL_PASSWORD := MYSQL_PASSWORD c; MYSQL_DB := MYSQL_DB c;
     MYSQL_PORT := MYSQL_PORT c; MQTT_BROKER := MQTT_BROKER c;
     MQTT_PORT := MQTT_PORT c; MQTT_TOPIC := MQTT_TOPIC c;
     CAMERA_INDEX := CAMERA_INDEX c;
     DETECTION_THRESHOLD := DETECTION_THRESHOLD c;
     RECOGNITION_THRESHOLD := RECOGNITION_THRESHOLD c;
     VERIFICATION_FRAMES := VERIFICATION_FRAMES c |}.
Definition set_MYSQL_USER (v : json) (c : settings) : settings :=
  {| SERVER_IP := SERVER_IP c; SERVER_PORT := SERVER_PORT c;
     API_BASE_URL := API_BASE_URL c; DEVICE_ID := DEVICE_ID c;
     MYSQL_HOST := MYSQL_HOST c; MYSQL_USER := v;
     MYSQL_PASSWORD := MYSQL_PASSWORD c; MYSQL_DB := MYSQL_DB c;
     MYSQL_PORT := MYSQL_PORT c; MQTT_BROKER := MQTT_BROKER c;
     MQTT_PORT := MQTT_PORT c; MQTT_TOPIC := MQTT_TOPIC c;
     CAMERA_INDEX := CAMERA_INDEX c;
     DETECTION_THRESHOLD := DETECTION_THRESHOLD c;
     RECOGNITION_THRESHOLD := RECOGNITION_THRESHOLD c;
     VERIFICATION_FRAMES := VERIFICATION_FRAMES c |}.
Definition set_MYSQL_PASSWORD (v : json) (c : settings) : settings :=
  {| SERVER_IP := SERVER_IP c; SERVER_PORT := SERVER_PORT c;
     API_BASE_URL := API_BASE_URL c; DEVICE_ID := DEVICE_ID c;
     MYSQL_HOST := MYSQL_HOST c; MYSQL_USER := MYSQL_USER c;
     MYSQL_PASSWORD := v; MYSQL_DB := MYSQL_DB c;
     MYSQL_PORT := MYSQL_PORT c; MQTT_BROKER := MQTT_BROKER c;
     MQTT_PORT := MQTT_PORT c; MQTT_TOPIC := MQTT_TOPIC c;
     CAMERA_INDEX := CAMERA_INDEX c;
     DETECTION_THRESHOLD := DETECTION_THRESHOLD c;
     RECOGNITION_THRESHOLD := RECOGNITION_THRESHOLD c;
     VERIFICATION_FRAMES := VERIFICATION_FRAMES c |}.
Definition set_MYSQL_DB (v : json) (c : settings) : settings :=
  {| SERVER_IP := SERVER_IP c; SERVER_PORT := SERVER_PORT c;
     API_BASE_URL := API_BASE_URL c; DEVICE_ID := DEVICE_ID c;
     MYSQL_HOST := MYSQL_HOST c; MYSQL_USER := MYSQL_USER c;
     MYSQL_PASSWORD := MYSQL_PASSWORD c; MYSQL_DB := v;
     MYSQL_PORT := MYSQL_PORT c; MQTT_BROKER := MQTT_BROKER c;
     MQTT_PORT := MQTT_PORT c; MQTT_TOPIC := MQTT_TOPIC c;
     CAMERA_INDEX := CAMERA_INDEX c;
     DETECTION_THRESHOLD := DETECTION_THRESHOLD c;
     RECOGNITION_THRESHOLD := RECOGNITION_THRESHOLD c;
     VERIFICATION_FRAMES := VERIFICATION_FRAMES c |}.
Definition set_MQTT_BROKER (v : json) (c : settings) : settings :=
  {| SERVER_IP := SERVER_IP c; SERVER_PORT := SERVER_PORT c;
     API_BASE_URL := API_BASE_URL c; DEVICE_ID := DEVICE_ID c;
     MYSQL_HOST := MYSQL_HOST c; MYSQL_USER := MYSQL_USER c;
     MYSQL_PASSWORD := MYSQL_PASSWORD c; MYSQL_DB := MYSQL_DB c;
     MYSQL_PORT := MYSQL_PORT c; MQTT_BROKER := v;
     MQTT_PORT := MQTT_PORT c; MQTT_TOPIC := MQTT_TOPIC c;
     CAMERA_INDEX := CAMERA_INDEX c;
     DETECTION_THRESHOLD := DETECTION_THRESHOLD c;
     RECOGNITION_THRESHOLD := RECOGNITION_THRESHOLD c;
     VERIFICATION_FRAMES := VERIFICATION_FRAMES c |}.
Definition set_DEVICE_ID (v : json) (c : settings) : settings :=
  {| SERVER_IP := SERVER_IP c; SERVER_PORT := SERVER_PORT c;
     API_BASE_URL := API_BASE_URL c; DEVICE_ID := v;
     MYSQL_HOST := MYSQL_HOST c; MYSQL_USER := MYSQL_USER c;
     MYSQL_PASSWORD := MYSQL_PASSWORD c; MYSQL_DB := MYSQL_DB c;
     MYSQL_PORT := MYSQL_PORT c; MQTT_BROKER := MQTT_BROKER c;
     MQTT_PORT := MQTT_PORT c; MQTT_TOPIC := MQTT_TOPIC c;
     CAMERA_INDEX := CAMERA_INDEX c;
     DETECTION_THRESHOLD := DETECTION_THRESHOLD c;
     RECOGNITION_THRESHOLD := RECOGNITION_THRESHOLD c;
     VERIFICATION_FRAMES := VERIFICATION_FRAMES c |}.

(** [if key in local_config: X = local_config[key]].  On a dict, [in] is
    key membership and the subscript its value.  On a list or a string [in]
    is item or substring membership and the subscript by a string raises
    [TypeError]; on a number, a boolean or [None], [in] itself raises
    [TypeError]. *)
Definition override (key : string) (assign : json -> settings -> settings)
    (local_config : json) : M settings unit unit :=
  match local_config with
  | JObject members =>
      match members !! key with
      | Some v => modify (assign v)
      | None => pass
      end
  | JArray items => if is_item key items then raise TypeError else pass
  | JString s => if occurs_in key s then raise TypeError else pass
  | JNull | JBool _ | JNumber _ => raise TypeError
  end.

(** Lines 54-69: the settings the module ends up with, given what
    [data/local_config.json] is. *)
Definition load_local_config (local_config_file : Recognizer.file json)
  : settings :=
  snd (def tt
         (if Recognizer.exists_ local_config_file then
            try_except
              (local_config <- call (Recognizer.load local_config_file) ;;
               override "MYSQL_HOST" set_MYSQL_HOST local_config ;;
               override "MYSQL_USER" set_MYSQL_USER local_config ;;
               override "MYSQL_PASSWORD" set_MYSQL_PASSWORD local_config ;;
               override "MYSQL_DB" set_MYSQL_DB local_config ;;
               override "MQTT_BROKER" set_MQTT_BROKER local_config ;;
               override "DEVICE_ID" set_DEVICE_ID local_config)
              (fun _ => pass)
          else pass)
         defaults).

End LocalConfig.

(** ** scripts/configure_network.py *)

Module ConfigureNetwork.

(** What the user types at the two prompts, after [strip()]; the second
    prompt is shown only when the first answer is not empty. *)
Record answers : Type := { new_ip : string; pw : string }.

(** The store of [main]: the file, and the variable [current_config]. *)
Record locals : Type := {
  config_file : Recognizer.file json;
  current_config : json
}.

Definition set_current_config (v : json) (l : locals) : locals :=
  {| config_file := config_file l; current_config := v |}.
Definition set_config_file (f : Recognizer.file json) (l : locals) : locals :=
  {| config_file := f; current_config := current_config l |}.

(** [current_config.get(key, default)]: only a dict has [get]. *)
Definition dict_get {R} (key : string) (default : json)
  : M locals R json :=
  l <- get ;;
  match current_config l with
  | JObject members =>
      ret (match members !! key with Some v => v | None => default end)
  | _ => raise AttributeError
  end.

(** [current_config[key] = value] *)
Definition dict_setitem {R} (key : string) (value : json)
  : M locals R unit :=
  l <- get ;;
  match current_config l with
  | JObject members =>
      modify (set_current_config (JObject (<[key := value]> members)))
  | _ => raise TypeError
  end.

(** [with open(CONFIG_PATH, 'w') as f: json.dump(current_config, f)], after
    the data directory was made if it was missing; [writable] says whether
    the file can be opened for writing. *)
Definition json_dump {R} (writable : bool) : M locals R unit :=
  if writable then
    l <- get ;;
    modify (set_config_file (Recognizer.Holds (current_config l)))
  else raise OSError.

(** [main]: whether it raised, and the file it leaves. *)
Definition main (a : answers) (writable : bool)
    (f : Recognizer.file json) : result unit * Recognizer.file json :=
  let '(r, l) :=
    def tt
      (modify (set_current_config (JObject ∅)) ;;
       when Recognizer.exists_ f then
         try_except
           (c <- call (Recognizer.load f) ;;
            modify (set_current_config c))
           (fun _ => pass) ;;
       dict_get "MYSQL_HOST" (JString "Not Set") ;;
       if negb (String.eqb (new_ip a) "") then
         dict_setitem "MYSQL_HOST" (JString (new_ip a)) ;;
         when negb (String.eqb (pw a) "") then
           dict_setitem "MYSQL_PASSWORD" (JString (pw a)) ;;
         json_dump writable
       else pass)
      {| config_file := f; current_config := JObject ∅ |} in
  (r, config_file l).

End ConfigureNetwork.

(** * What the further properties speak about *)

(** ** The ledger *)

(** [UPDATE local_attendance SET synced = 1 WHERE id = ?] for every id of
    [ids], as a function of the table. *)
Definition mark_synced (ids : list Z) (table : list Database.attendance)
  : list Database.attendance :=
  map (fun r => if bool_decide (Database.id r ∈ ids)
                then Database.set_synced true r else r) table.

(** The batch a sync reads. *)
Definition batch (w : Database.world) : list Database.attendance :=
  take 50 (unsynced w).

(** [r'] is the row [r], possibly with [synced] raised from 0 to 1. *)
Definition same_or_synced (r r' : Database.attendance) : Prop :=
  Database.id r' = Database.id r
  /\ Database.timestamp r' = Database.timestamp r
  /\ Database.device_id r' = Database.device_id r
  /\ Database.name r' = Database.name r
  /\ (Database.synced r = true -> Database.synced r' = true).

(** Both stores respond in [env] and the central store accepts the batch
    of [w]. *)
Definition responds (env : Database.environment) (w : Database.world) : Prop :=
  Database.sqlite_read_ok env = true
  /\ Database.sqlite_write_ok env = true
  /\ Database.mysql_connect_ok env = true
  /\ Forall (accepted env) (batch w)
  /\ Database.mysql_commit_ok env = true.

(** [k] calls of [sync_to_mysql], one after the other. *)
Fixpoint sync_times (env : Database.environment) (k : nat)
    (w : Database.world) : Database.world :=
  match k with
  | 0 => w
  | S k' => sync_times env k' (snd (Database.sync_to_mysql env w))
  end.

(** [log_attendance] for a list of (device, name) events, in order. *)
Fixpoint log_all (env : Database.environment)
    (events : list (string * string)) (w : Database.world) : Database.world :=
  match events with
  | [] => w
  | (device_id, name) :: rest =>
      log_all env rest (snd (Database.log_attendance env device_id name w))
  end.

(** The rows [log_all] writes: consecutive ids after [seq], the time of
    the clock, unsynced. *)
Fixpoint logged_rows (env : Database.environment) (seq : Z)
    (events : list (string * string)) : list Database.attendance :=
  match events with
  | [] => []
  | (device_id, name) :: rest =>
      {| Database.id := seq + 1; Database.timestamp := Database.time_time env;
         Database.device_id := device_id; Database.name := name;
         Database.synced := false |}
      :: logged_rows env (seq + 1) rest
  end.

(** ** The local configuration file *)


(** The file can be taken as a dict by the wizard: it is missing or
    unparsable (an empty dict is used), or holds a JSON object. *)
Definition usable_by_wizard (f : Recognizer.file json) : Prop :=
  forall v, f = Recognizer.Holds v -> exists members, v = JObject members.

(** The settings a JSON object gives: each of the six keys replaces its
    default when present. *)
Definition overridden (members : gmap string json) : LocalConfig.settings :=
  let d := LocalConfig.defaults in
  {| LocalConfig.SERVER_IP := LocalConfig.SERVER_IP d;
     LocalConfig.SERVER_PORT := LocalConfig.SERVER_PORT d;
     LocalConfig.API_BASE_URL := LocalConfig.API_BASE_URL d;
     LocalConfig.DEVICE_ID :=
       default (LocalConfig.DEVICE_ID d) (members !! "DEVICE_ID");
     LocalConfig.MYSQL_HOST :=
       default (LocalConfig.MYSQL_HOST d) (members !! "MYSQL_HOST");
     LocalConfig.MYSQL_USER :=
       default (LocalConfig.MYSQL_USER d) (members !! "MYSQL_USER");
     LocalConfig.MYSQL_PASSWORD :=
       default (LocalConfig.MYSQL_PASSWORD d) (members !! "MYSQL_PASSWORD");
     LocalConfig.MYSQL_DB :=
       default (LocalConfig.MYSQL_DB d) (members !! "MYSQL_DB");
     LocalConfig.MYSQL_PORT := LocalConfig.MYSQL_PORT d;
     LocalConfig.MQTT_BROKER :=
       default (LocalConfig.MQTT_BROKER d) (members !! "MQTT_BROKER");
     LocalConfig.MQTT_PORT := LocalConfig.MQTT_PORT d;
     LocalConfig.MQTT_TOPIC := LocalConfig.MQTT_TOPIC d;
     LocalConfig.CAMERA_INDEX := LocalConfig.CAMERA_INDEX d;
     LocalConfig.DETECTION_THRESHOLD := LocalConfig.DETECTION_THRESHOLD d;
     LocalConfig.RECOGNITION_THRESHOLD := LocalConfig.RECOGNITION_THRESHOLD d;
     LocalConfig.VERIFICATION_FRAMES := LocalConfig.VERIFICATION_FRAMES d |}.

(** ** More values for the examples *)

(** An OpenCV whose detector raises on every frame. *)
Definition failing_detector_cv : Recognizer.OpenCV := {|
  Recognizer.for_alignment := example_alignment_cv;
  Recognizer.FaceDetectorYN_create := Ok {| Recognizer.input_size := (320, 320) |};
  Recognizer.readNetFromONNX := Ok {| Recognizer.net_input := None |};
  Recognizer.astype_int := truncate;
  Recognizer.setInputSize := fun _ => Ok tt;
  Recognizer.detect := fun _ => Raise cv2_error;
  Recognizer.blobFromImage := fun img =>
    Ok (Some {| shape := [1; 3; 112; 112]; data := data img |});
  Recognizer.setInput := fun _ => Ok tt;
  Recognizer.forward := fun _ => Ok (Some (array2 [[Finite 3; Finite 4]]));
  Recognizer.normalize := fun _ =>
    Ok (array2 [[Finite (3 # 5); Finite (4 # 5)]]);
  Recognizer.np_dot := binary32_np_dot
|}.

(** A file system with both models and a gallery of three. *)
Definition example_files : Recognizer.FileSystem := {|
  Recognizer.yunet_path := Recognizer.Holds tt;
  Recognizer.mobilefacenet_path := Recognizer.Holds tt;
  Recognizer.embeddings_file :=
    Recognizer.Holds (Recognizer.known_embeddings example_recognizer);
  Recognizer.names_file :=
    Recognizer.Holds (Recognizer.known_names example_recognizer)
|}.

(** An environment in which the central store works and the local store
    can be read but not written. *)
Definition read_only_env : Database.environment := {|
  Database.sqlite_read_ok := true;
  Database.sqlite_write_ok := false;
  Database.mysql_connect_ok := true;
  Database.mysql_insert_ok := fun _ => true;
  Database.mysql_commit_ok := true;
  Database.time_time := 1762176000;
  Database.strftime := fun _ => Ok "2025-11-03 13:20:00"
|}.

(** The answers of a user who types an address and no password. *)
Definition example_answers : ConfigureNetwork.answers := {|
  ConfigureNetwork.new_ip := "192.168.1.50";
  ConfigureNetwork.pw := ""
|}.

(** A backlog of [n] events logged with the central store out of reach,
    the names alternating. *)
Definition backlog (n : nat) : Database.world :=
  log_all (example_env true false)
    (map (fun i => ("device-A", if Nat.even i then "Alice" else "Bob"))
       (seq 0 n))
    empty_world.

(** * Properties *)

(** ** The aligner *)

Section AlignmentFacts.

Variable cv : Alignment.OpenCV.
Variable aligner : Alignment.StandardFaceAligner.

Lemma cast_float32_keeps_non_finite cast x :
  isfinite x = false -> isfinite (cast_float32 cast x) = false.
Proof. destruct x; simpl; congruence. Qed.

Lemma all_isfinite_false_intro (rows : list (list float)) row x :
  row ∈ rows -> x ∈ row -> isfinite x = false -> all_isfinite rows = false.
Proof.
  intros Hrow Hx Hnf. unfold all_isfinite.
  apply not_true_is_false. intros Hall.
  rewrite forallb_forall in Hall.
  apply list_elem_of_In in Hrow. specialize (Hall _ Hrow).
  rewrite forallb_forall in Hall.
  apply list_elem_of_In in Hx. specialize (Hall _ Hx). congruence.
Qed.

Lemma array_float32_keeps_non_finite cast (rows a : list (list float)) :
  has_non_finite rows ->
  array_float32 cast rows = Ok a -> all_isfinite a = false.
Proof.
  intros (row & x & Hrow & Hx & Hnf). unfold array_float32.
  destruct (rectangular rows); [|discriminate].
  intros [= <-].
  apply all_isfinite_false_intro
    with (row := map (cast_float32 cast) row) (x := cast_float32 cast x).
  - apply list_elem_of_fmap. eauto.
  - apply list_elem_of_fmap. eauto.
  - by apply cast_float32_keeps_non_finite.
Qed.

(** C2. Whenever a precondition of [align] is violated (a landmark
    coordinate is NaN or infinite, the image is absent or has fewer than 10
    rows or columns, or there are not exactly 5 landmarks), [align] returns
    [None] and raises nothing, whatever the other argument is. *)
Theorem align_invalid_on_violated_precondition
    (image : option ndarray) (landmarks : option (list (list float))) :
  non_finite_landmarks landmarks \/ image_too_small image
    \/ wrong_landmark_count landmarks ->
  Alignment.align cv aligner image landmarks = Ok None.
Proof.
  intros Hbad. unfold Alignment.align, def, try_except, Alignment.align_body.
  destruct image as [image|], landmarks as [landmarks|]; try reflexivity.
  unfold bind, index, call, return_, ret, raise.
  destruct (length landmarks =? 5) eqn:Hlen; simpl; [|reflexivity].
  destruct (shape image) as [|h [|w rest]] eqn:Hshape; simpl; try reflexivity.
  { destruct (h <? 10); reflexivity. }
  destruct (h <? 10) eqn:Hh; simpl; [reflexivity|].
  destruct (w <? 10) eqn:Hw; simpl; [reflexivity|].
  destruct (array_float32 _ landmarks) as [a|e] eqn:Ha; simpl; [|reflexivity].
  destruct (all_isfinite a) eqn:Hfin; simpl; [|reflexivity].
  exfalso. destruct Hbad as [Hnf | [Hsmall | Hcount]].
  - simpl in Hnf. pose proof (array_float32_keeps_non_finite _ _ _ Hnf Ha).
    congruence.
  - simpl in Hsmall. unfold extent in Hsmall. rewrite Hshape in Hsmall.
    simpl in Hsmall.
    apply Nat.ltb_ge in Hh, Hw. lia.
  - simpl in Hcount. apply Nat.eqb_eq in Hlen. lia.
Qed.

End AlignmentFacts.

(** A 200 x 200 image with a NaN among the landmarks. *)
Example align_invalid_on_violated_precondition_witness :
  Alignment.align example_alignment_cv Alignment.aligner
    (Some {| shape := [200; 200; 3]; data := [] |})
    (Some [[Finite 38; Finite 52]; [NaN; Finite 51]; [Finite 56; Finite 72];
           [Finite 42; Finite 92]; [Finite 71; Finite 92]]) = Ok None.
Proof.
  apply align_invalid_on_violated_precondition.
  left. exists [NaN; Finite 51], NaN.
  repeat split; apply list_elem_of_In; simpl; tauto.
Defined.

(** ** The gallery store *)

Section GalleryFacts.

Import Recognizer.

(** C8. If reading the embedding array or the name list fails in any way
    (a missing file included), [reload] returns [False] and leaves
    [known_embeddings] and [known_names] as they were. *)
Theorem reload_failure_keeps_gallery (fs : FileSystem) (self : FaceRecognizer) :
  read_failure fs ->
  reload fs self = (Ok false, self).
Proof.
  intros Hfail. unfold reload, def, try_except, bind, call, return_, pass, ret.
  destruct (exists_ (embeddings_file fs) && exists_ (names_file fs)) eqn:Hex;
    [|reflexivity].
  destruct (load (embeddings_file fs)) as [emb|e1] eqn:He; [|reflexivity].
  destruct (load (names_file fs)) as [names|e2] eqn:Hn; [|reflexivity].
  destruct Hfail as [[e H]|[e H]]; congruence.
Qed.

(** A names file that does not parse. *)
Example reload_failure_keeps_gallery_witness :
  let self := {| detector := None; recognizer := None;
                 known_embeddings :=
                   array2 [[Finite 1; Finite 0]; [Finite 0; Finite 1]];
                 known_names := ["Alice"; "Bob"] |} in
  reload {| yunet_path := Holds tt; mobilefacenet_path := Holds tt;
            embeddings_file := Holds (array2 [[Finite 1; Finite 0]]);
            names_file := Corrupt JSONDecodeError |} self
  = (Ok false, self).
Proof.
  apply reload_failure_keeps_gallery. right. by exists JSONDecodeError.
Defined.

(** [__init__] without the model files: nothing is loaded, nothing raises. *)
Lemma init_without_models (cv : OpenCV) (fs : FileSystem) :
  model_missing fs ->
  exists self, __init__ cv fs = (Ok tt, self)
               /\ (detector self = None /\ recognizer self = None).
Proof.
  intros Hmiss. unfold __init__, _load_models, _load_database.
  assert (negb (exists_ (yunet_path fs)) || negb (exists_ (mobilefacenet_path fs))
          = true) as ->.
  { destruct Hmiss as [-> | ->]; simpl; [reflexivity|].
    by destruct (exists_ (yunet_path fs)). }
  unfold def, invoke, bind, return_, try_except, call, modify, pass, ret.
  simpl.
  destruct (exists_ (embeddings_file fs) && exists_ (names_file fs)).
  - unfold get.
    destruct (load (embeddings_file fs)) as [e|]; simpl;
      [destruct (load (names_file fs)); simpl;
       [destruct (len e); simpl|]|]; eauto.
  - eauto.
Qed.

(** Without a detector or without a network, a frame gives the empty
    result and the object is unchanged. *)
Lemma recognize_faces_without_models cv aligner frame (self : FaceRecognizer) :
  detector self = None \/ recognizer self = None ->
  recognize_faces cv aligner frame self = (Ok ([], []), self).
Proof.
  intros Hnone. unfold recognize_faces, recognize_faces_body.
  destruct frame as [frame|]; [|reflexivity].
  unfold def, try_except, bind, return_, get, ret. simpl.
  destruct (size frame =? 0); simpl; [reflexivity|].
  destruct Hnone as [-> | ->]; [reflexivity|].
  by destruct (detector self).
Qed.

(** C7. When the detector or the embedder file is missing at start-up, the
    constructor completes; from then on every frame is processed without an
    exception, the object keeps its state, and every name reported is
    "Unknown" (the two lists are in fact empty). *)
Theorem missing_models_degrade_to_unknown (cv : OpenCV) (fs : FileSystem) :
  model_missing fs ->
  exists self0,
    __init__ cv fs = (Ok tt, self0)
    /\ forall self aligner frame,
        detector self = detector self0 ->
        recognizer self = recognizer self0 ->
        exists locations names,
          recognize_faces cv aligner frame self = (Ok (locations, names), self)
          /\ length locations = length names
          /\ Forall (fun name => name = "Unknown") names.
Proof.
  intros Hmiss.
  destruct (init_without_models cv fs Hmiss) as (self0 & Hinit & Hd & Hr).
  exists self0. split; [assumption|].
  intros self aligner frame Hd' Hr'.
  exists [], []. rewrite recognize_faces_without_models.
  - repeat split. constructor.
  - left. congruence.
Qed.

End GalleryFacts.
(** ** The matcher *)

Section MatcherFacts.

Import Recognizer.

(** The comparisons of the code against the order of the scores. *)
Lemma le_at_most (x y : float) : le x y = true <-> at_most x y.
Proof.
  destruct x, y; simpl; try tauto; try (split; [discriminate|tauto]).
  apply Qle_bool_iff.
Qed.

Lemma at_most_refl (x : float) : x <> NaN -> at_most x x.
Proof. destruct x; simpl; try tauto. intros _. apply Qle_refl. Qed.

Lemma at_most_trans (x y z : float) :
  at_most x y -> at_most y z -> at_most x z.
Proof. destruct x, y, z; simpl; try tauto. apply Qle_trans. Qed.

Lemma at_most_total (x y : float) :
  x <> NaN -> y <> NaN -> at_most x y \/ at_most y x.
Proof.
  destruct x as [a| | |], y as [b| | |]; simpl; try tauto.
  intros _ _. destruct (Qlt_le_dec a b); [left; by apply Qlt_le_weak|by right].
Qed.

Lemma not_le_less (x y : float) :
  x <> NaN -> y <> NaN -> le x y = false -> less y x.
Proof.
  intros Hx Hy Hle.
  assert (~ at_most x y) as Hn.
  { intros H. apply le_at_most in H. congruence. }
  split; [|assumption].
  destruct (at_most_total x y Hx Hy); tauto.
Qed.

Lemma at_most_less_trans (x y z : float) :
  at_most x y -> less y z -> less x z.
Proof.
  intros Hxy [Hyz Hzy]. split; [by apply at_most_trans with y|].
  intros Hzx. apply Hzy. by apply at_most_trans with x.
Qed.

Lemma gt_less (x y : float) : gt x y = true <-> less y x.
Proof.
  unfold gt, less. rewrite andb_true_iff, negb_true_iff, le_at_most.
  split; intros [H1 H2]; (split; [assumption|]).
  - intros H. apply le_at_most in H. congruence.
  - destruct (le x y) eqn:Hle; [|reflexivity].
    exfalso. by apply H2, le_at_most.
Qed.

Lemma isnan_true (x : float) : isnan x = true <-> x = NaN.
Proof. destruct x; simpl; split; congruence. Qed.

Lemma isnan_false (x : float) : isnan x = false <-> x <> NaN.
Proof. destruct x; simpl; split; congruence. Qed.

(** The scan keeps the first maximum of what it has seen. *)
Lemma argmax_from_first_maximum (rest seen : list float) best_idx best :
  best <> NaN ->
  comparable rest ->
  first_maximum seen best_idx best ->
  exists m,
    first_maximum (seen ++ rest)
      (argmax_from best_idx best (length seen) rest) m.
Proof.
  revert seen best_idx best.
  induction rest as [|x rest IH]; intros seen best_idx best Hnan Hrest Hmax;
    simpl.
  - exists best. by rewrite app_nil_r.
  - replace (seen ++ x :: rest) with ((seen ++ [x]) ++ rest)
      by (by rewrite <- app_assoc).
    replace (S (length seen)) with (length (seen ++ [x]))
      by (rewrite length_app; simpl; lia).
    apply Forall_cons in Hrest as [Hx Hrest].
    destruct Hmax as (Hbest & Hle & Hlt).
    destruct (le x best) eqn:Hxb.
    + apply le_at_most in Hxb.
      apply IH; [assumption..|]. split; [|split].
      * by apply lookup_app_l_Some.
      * intros j y Hj. apply lookup_app_Some in Hj as [Hj | [_ Hj]]; [eauto|].
        by apply list_lookup_singleton_Some in Hj as [_ <-].
      * intros j y Hji Hj. apply lookup_app_Some in Hj as [Hj | [Hge _]];
          [eauto|].
        apply lookup_lt_Some in Hbest. lia.
    + apply not_le_less in Hxb; [|assumption..].
      apply isnan_false in Hx as Hx'. rewrite Hx'.
      apply IH; [assumption..|]. split; [|split].
      * by rewrite lookup_app_r, Nat.sub_diag.
      * intros j y Hj. apply lookup_app_Some in Hj as [Hj | [_ Hj]].
        -- apply at_most_trans with best; [eauto|apply Hxb].
        -- apply list_lookup_singleton_Some in Hj as [_ <-].
           by apply at_most_refl.
      * intros j y Hji Hj. apply lookup_app_Some in Hj as [Hj | [Hge _]];
          [|lia].
        apply at_most_less_trans with best; eauto.
Qed.

Lemma argmax_first_maximum (scores : list float) :
  scores <> [] ->
  comparable scores ->
  exists i m, argmax scores = Ok i /\ first_maximum scores i m.
Proof.
  destruct scores as [|x rest]; [done|]. intros _ Hcmp.
  apply Forall_cons in Hcmp as [Hx Hrest].
  destruct (argmax_from_first_maximum rest [x] 0 x Hx Hrest) as (m & Hm).
  - split; [reflexivity|]. split.
    + intros j y Hj. apply list_lookup_singleton_Some in Hj as [_ <-].
      by apply at_most_refl.
    + intros; lia.
  - exists (argmax_from 0 x 1 rest), m. simpl.
    apply isnan_false in Hx. rewrite Hx. by split.
Qed.

(** With a NaN among the scores the scan ends on a NaN. *)
Lemma argmax_from_nan (rest seen : list float) best_idx best :
  NaN ∈ rest ->
  (seen ++ rest) !! argmax_from best_idx best (length seen) rest = Some NaN.
Proof.
  revert seen best_idx best.
  induction rest as [|x rest IH]; intros seen best_idx best Hin; simpl.
  - by apply elem_of_nil in Hin.
  - assert (forall bi b,
              x <> NaN ->
              (seen ++ x :: rest)
                !! argmax_from bi b (S (length seen)) rest = Some NaN) as Hrec.
    { intros bi b Hx.
      apply elem_of_cons in Hin as [Hin|Hin]; [congruence|].
      replace (seen ++ x :: rest) with ((seen ++ [x]) ++ rest)
        by (by rewrite <- app_assoc).
      replace (S (length seen)) with (length (seen ++ [x]))
        by (rewrite length_app; simpl; lia).
      by apply IH. }
    destruct (le x best) eqn:Hxb.
    + apply Hrec. intros ->. discriminate.
    + destruct (isnan x) eqn:Hx.
      * apply isnan_true in Hx as ->.
        by rewrite lookup_app_r, Nat.sub_diag.
      * by apply Hrec, isnan_false.
Qed.

Lemma argmax_nan (scores : list float) :
  NaN ∈ scores ->
  exists i, argmax scores = Ok i /\ scores !! i = Some NaN.
Proof.
  destruct scores as [|x rest]; intros Hin; [by apply elem_of_nil in Hin|].
  simpl. destruct (isnan x) eqn:Hx.
  - apply isnan_true in Hx as ->. by exists 0.
  - eexists. split; [reflexivity|].
    apply elem_of_cons in Hin as [Hin|Hin].
    + apply isnan_false in Hx. congruence.
    + exact (argmax_from_nan rest [x] 0 x Hin).
Qed.

(** C1. Against an empty gallery the name is "Unknown" for every query.
    Against a non-empty gallery (names parallel to the embeddings) the
    matcher takes the scores [np.dot] gives for the gallery and the query,
    one for each gallery embedding, picks the first index of their maximum,
    and gives that index's name exactly when the maximum exceeds
    RECOGNITION_THRESHOLD = 0.70, "Unknown" otherwise.  A NaN among the
    scores gives "Unknown", and an exception of [np.dot] leaves the
    matcher.  The scores are those NumPy computes, whatever its rounding:
    the maximum and its ties are taken among them. *)
Theorem matcher_first_maximum_above_threshold {S R : Type}
    (cv : OpenCV) (self : FaceRecognizer) (query : float_ndarray) (s : S) :
  Config.RECOGNITION_THRESHOLD == 70 # 100
  /\ (gallery_size self 0 ->
      compare_with_known (R := R) cv self query "Unknown" s
      = (Val "Unknown", s))
  /\ (forall scores,
        np_dot cv (known_embeddings self) query = Ok scores ->
        gallery_matches self scores ->
        comparable scores ->
        exists i m name,
          first_maximum scores i m
          /\ known_names self !! i = Some name
          /\ (less (Finite Config.RECOGNITION_THRESHOLD) m ->
              compare_with_known (R := R) cv self query "Unknown" s
              = (Val name, s))
          /\ (at_most m (Finite Config.RECOGNITION_THRESHOLD) ->
              compare_with_known (R := R) cv self query "Unknown" s
              = (Val "Unknown", s)))
  /\ (forall scores,
        np_dot cv (known_embeddings self) query = Ok scores ->
        gallery_matches self scores ->
        NaN ∈ scores ->
        compare_with_known (R := R) cv self query "Unknown" s
        = (Val "Unknown", s))
  /\ (forall n e,
        gallery_size self n -> 0 < n ->
        np_dot cv (known_embeddings self) query = Raise e ->
        compare_with_known (R := R) cv self query "Unknown" s = (Exc e, s)).
Proof.
  split; [reflexivity|]. split; [|split; [|split]].
  - intros Hempty. unfold compare_with_known, bind, call.
    unfold gallery_size in Hempty. by rewrite Hempty.
  - intros scores Hdot (Hne & Hsize & Hnames) Hcmp.
    destruct (argmax_first_maximum scores Hne Hcmp) as (i & m & Harg & Hmax).
    assert (is_Some (known_names self !! i)) as [name Hname].
    { apply lookup_lt_is_Some. rewrite Hnames.
      destruct Hmax as [Hi _]. by apply lookup_lt_Some in Hi. }
    exists i, m, name. split; [assumption|]. split; [assumption|].
    assert (compare_with_known (S := S) (R := R) cv self query "Unknown" s
            = (if gt m (Finite Config.RECOGNITION_THRESHOLD)
               then (Val name, s) else (Val "Unknown", s))) as Heq.
    { unfold compare_with_known, bind, call, index, ret.
      unfold gallery_size in Hsize. rewrite Hsize.
      replace (0 <? length scores) with true
        by (symmetry; apply Nat.ltb_lt; destruct scores; simpl; [done|lia]).
      rewrite Hdot, Harg.
      destruct Hmax as [-> _].
      destruct (gt m _); [by rewrite Hname | reflexivity]. }
    rewrite Heq. split; intros Hm.
    + apply gt_less in Hm. by rewrite Hm.
    + destruct (gt m _) eqn:Hgt; [|reflexivity].
      apply gt_less in Hgt. destruct Hgt as [_ Hgt]. tauto.
  - intros scores Hdot (Hne & Hsize & Hnames) Hnan.
    destruct (argmax_nan scores Hnan) as (i & Harg & Hi).
    unfold compare_with_known, bind, call, index, ret.
    unfold gallery_size in Hsize. rewrite Hsize.
    replace (0 <? length scores) with true
      by (symmetry; apply Nat.ltb_lt; destruct scores; simpl; [done|lia]).
    by rewrite Hdot, Harg, Hi.
  - intros n e Hsize Hn Hdot.
    unfold compare_with_known, bind, call.
    unfold gallery_size in Hsize. rewrite Hsize.
    replace (0 <? n) with true by (symmetry; by apply Nat.ltb_lt).
    by rewrite Hdot.
Qed.

End MatcherFacts.

(** ** The ledger *)

Section LedgerFacts.

Import Database.

Variable env : environment.

(** C3. When the local insert succeeds, [log_attendance] returns [True]
    and the local table gains exactly one row, stamped with the current
    time and unsynced; the central table and connection are untouched and no
    call to the central store is made, whatever the central store would have
    answered. *)
Theorem log_attendance_is_local (device_id name : string) (w : world) :
  sqlite_write_ok env = true ->
  exists w',
    log_attendance env device_id name w = (Ok true, w')
    /\ local_attendance w'
       = local_attendance w
         ++ [{| id := sqlite_sequence w + 1; timestamp := time_time env;
                device_id := device_id; name := name; synced := false |}]
    /\ attendance_log w' = attendance_log w
    /\ exists h, history w' = history w ++ h
                 /\ filter (fun e => is_central e = true) h = [].
Proof.
  intros Hok. unfold log_attendance, def, try_except, sqlite_insert.
  unfold bind, get, modify, return_, raise. simpl. rewrite Hok. simpl.
  eexists. split; [reflexivity|]. simpl. repeat split.
  eexists. split; [reflexivity|]. reflexivity.
Qed.

(** C4. When the central store cannot be reached, [sync_to_mysql] changes
    nothing: the local table (every synced flag with it) and the central
    table are as before and no central insert is made. *)
Theorem sync_unreachable_changes_nothing (w : world) :
  mysql_connect_ok env = false ->
  exists w',
    sync_to_mysql env w = (Ok tt, w')
    /\ local_attendance w' = local_attendance w
    /\ sqlite_sequence w' = sqlite_sequence w
    /\ attendance_log w' = attendance_log w
    /\ exists h, history w' = history w ++ h /\ inserted h = [].
Proof.
  intros Hoff. unfold sync_to_mysql, def, try_except, sqlite_select_unsynced,
    mysql_connect.
  unfold bind, get, modify, return_, raise, ret. simpl.
  destruct (sqlite_read_ok env); simpl.
  - destruct (take 50 _) as [|r records]; simpl.
    + eexists. split; [reflexivity|]. simpl. repeat split.
      eexists. split; reflexivity.
    + rewrite Hoff. simpl.
      eexists. split; [reflexivity|]. simpl. repeat split.
      eexists. split; [by rewrite <- app_assoc|]. reflexivity.
  - eexists. split; [reflexivity|]. simpl. repeat split.
    eexists. split; reflexivity.
Qed.

(** The upload loop when every row is accepted: each row is inserted on
    the connection, in order, and its id is collected. *)
Lemma upload_rows_accepted (records : list attendance) (l : locals) pending :
  m_conn l = Some pending ->
  Forall (accepted env) records ->
  exists rows l',
    for_each records (upload_row env) l = (Val tt, l')
    /\ Forall2 (fun r row => central_row env r = Some row) records rows
    /\ local_attendance (db l') = local_attendance (db l)
    /\ sqlite_sequence (db l') = sqlite_sequence (db l)
    /\ attendance_log (db l') = attendance_log (db l)
    /\ m_conn l' = Some (pending ++ rows)
    /\ history (db l')
       = history (db l) ++ map (fun row => Called (MysqlInsert row) true) rows
    /\ synced_ids l' = synced_ids l ++ map id records.
Proof.
  revert l pending.
  induction records as [|r records IH]; intros l pending Hconn Hacc.
  - exists [], l. simpl. rewrite !app_nil_r. repeat split; auto.
  - apply Forall_cons in Hacc as [(row & Hrow & Hins) Hacc].
    simpl. unfold upload_row at 1, mysql_insert.
    unfold central_row in Hrow.
    destruct (strftime env (timestamp r)) as [dt|] eqn:Hdt; [|discriminate].
    injection Hrow as <-.
    unfold bind, call, get, modify, ret, raise. rewrite Hconn. simpl.
    rewrite Hins. simpl.
    match goal with
    | |- context [for_each records _ ?l1] =>
        destruct (IH l1 (pending ++ [{| log_timestamp := dt;
                                        log_device_id := device_id r;
                                        log_name := name r;
                                        log_synced := true |}]))
          as (rows & l' & Hrun & Hrows & Hloc & Hseq & Hlog & Hc & Hh & Hids);
          [reflexivity | assumption |]
    end.
    simpl in *.
    eexists (_ :: rows), l'. split; [exact Hrun|].
    split.
    { constructor; [|exact Hrows]. unfold central_row. by rewrite Hdt. }
    rewrite Hloc, Hseq, Hlog, Hc, Hh, Hids. simpl.
    rewrite <- !app_assoc. repeat split.
Qed.

Lemma set_synced_true_id (r : attendance) :
  synced r = true -> set_synced true r = r.
Proof. destruct r; simpl; intros ->; reflexivity. Qed.

(** Marking by the ids of the unsynced rows marks the unsynced rows and
    leaves the others as they are. *)
Lemma mark_unsynced (table : list attendance) :
  map (fun r =>
         if bool_decide
              (id r ∈ map id (filter (fun r => synced r = false) table))
         then set_synced true r else r) table
  = map (fun r => if synced r then r else set_synced true r) table.
Proof.
  apply map_ext_in. intros r Hr. apply list_elem_of_In in Hr.
  destruct (synced r) eqn:Hs.
  - case_bool_decide; [by apply set_synced_true_id | reflexivity].
  - rewrite bool_decide_eq_true_2; [reflexivity|].
    apply list_elem_of_fmap. exists r. split; [reflexivity|].
    by apply list_elem_of_filter.
Qed.

Lemma inserted_app (h1 h2 : list event) :
  inserted (h1 ++ h2) = inserted h1 ++ inserted h2.
Proof. unfold inserted. apply omap_app. Qed.

(** The upload loop in any environment: the rows inserted are the uploads
    of a prefix of the records, in order; the loop stops early only at a
    row the central store does not accept. *)
Lemma upload_rows_prefix (records : list attendance) (l : locals) pending :
  m_conn l = Some pending ->
  exists o l' k h,
    for_each records (upload_row env) l = (o, l')
    /\ Forall2 (fun r row => central_row env r = Some row)
         (take k records) (inserted h)
    /\ local_attendance (db l') = local_attendance (db l)
    /\ attendance_log (db l') = attendance_log (db l)
    /\ m_conn l' = Some (pending ++ inserted h)
    /\ history (db l') = history (db l) ++ h
    /\ ((o = Val tt /\ k = length records
         /\ synced_ids l' = synced_ids l ++ map id records)
        \/ (exists e, o = Exc e) /\ ~ Forall (accepted env) records).
Proof.
  revert l pending.
  induction records as [|r records IH]; intros l pending Hconn.
  - exists (Val tt), l, 0, []. cbn. rewrite !app_nil_r.
    repeat split; auto.
  - cbn [for_each]. unfold upload_row at 1, mysql_insert.
    unfold bind, call, get, modify, ret, raise.
    destruct (strftime env (timestamp r)) as [dt|e] eqn:Hdt.
    + rewrite Hconn. simpl.
      set (row := {| log_timestamp := dt; log_device_id := device_id r;
                     log_name := name r; log_synced := true |}).
      assert (central_row env r = Some row) as Hrow.
      { unfold central_row. by rewrite Hdt. }
      destruct (mysql_insert_ok env row) eqn:Hins; simpl.
      * match goal with
        | |- context [for_each records _ ?l1] =>
            destruct (IH l1 (pending ++ [row]))
              as (o & l' & k & h & Hrun & Hrows & Hloc & Hlog & Hc & Hh & Hend);
              [reflexivity|]
        end.
        simpl in *.
        exists o, l', (S k), (Called (MysqlInsert row) true :: h).
        split; [exact Hrun|]. split; [by constructor|].
        rewrite Hloc, Hlog, Hc, Hh. simpl. rewrite <- !app_assoc.
        repeat split.
        destruct Hend as [(-> & -> & ->) | [Hexc Hnot]].
        -- left. rewrite <- app_assoc. repeat split.
        -- right. split; [assumption|]. intros Hall.
           apply Hnot. by apply Forall_cons in Hall as [_ ?].
      * eexists _, _, 0, [Called (MysqlInsert row) false].
        split; [reflexivity|]. simpl. rewrite app_nil_r.
        repeat split; try (by constructor); try assumption. right. split; [eauto|].
        intros Hall. apply Forall_cons in Hall as [(row' & Hrow' & Hok) _].
        congruence.
    + eexists _, _, 0, []. split; [reflexivity|]. simpl. rewrite !app_nil_r.
      repeat split; try (by constructor); try assumption. right. split; [eauto|].
      intros Hall. apply Forall_cons in Hall as [(row' & Hrow' & Hok) _].
      unfold central_row in Hrow'. by rewrite Hdt in Hrow'.
Qed.

Local Arguments for_each : simpl never.

(** C5. [sync_to_mysql] reads the oldest unsynced rows, at most 50 of
    them, in insertion order.  In every environment the rows it inserts
    centrally are the uploads of a prefix of that batch, in that order; when
    both stores respond and accept the batch, the central table gains the
    uploads of the whole batch, in that order. *)
Theorem sync_uploads_oldest_batch_in_order (w : world) :
  exists batch rest,
    unsynced w = batch ++ rest
    /\ length batch <= 50
    /\ (rest <> [] -> length batch = 50)
    /\ exists w' h k,
        sync_to_mysql env w = (Ok tt, w')
        /\ history w' = history w ++ h
        /\ Forall2 (fun r row => central_row env r = Some row)
             (take k batch) (inserted h)
        /\ (sqlite_read_ok env = true ->
            mysql_connect_ok env = true ->
            Forall (accepted env) batch ->
            mysql_commit_ok env = true ->
            k = length batch
            /\ attendance_log w' = attendance_log w ++ inserted h).
Proof.
  exists (take 50 (unsynced w)), (drop 50 (unsynced w)).
  split; [by rewrite take_drop|].
  split; [rewrite length_take; lia|].
  split.
  { intros Hrest. rewrite length_take.
    destruct (decide (length (unsynced w) <= 50)) as [Hle|]; [|lia].
    by rewrite drop_ge in Hrest. }
  unfold sync_to_mysql, def, try_except, sqlite_select_unsynced,
    mysql_connect, mysql_commit, mysql_close, sqlite_mark_synced, pass.
  unfold bind, get, modify, return_, raise, ret.
  simpl. fold (unsynced w).
  destruct (sqlite_read_ok env); simpl.
  2:{ eexists _, _, 0. split; [reflexivity|]. simpl.
      split; [reflexivity|]. split; [constructor|].
      discriminate. }
  fold (unsynced w).
  destruct (take 50 (unsynced w)) as [|r0 records] eqn:Hbatch.
  { simpl. eexists _, _, 0. split; [reflexivity|]. simpl.
    split; [reflexivity|]. split; [constructor|].
    intros. by rewrite app_nil_r. }
  destruct (mysql_connect_ok env); simpl.
  2:{ eexists _, _, 0. split; [reflexivity|]. simpl.
      split; [by rewrite <- app_assoc|]. split; [constructor|].
      discriminate. }
  match goal with
  | |- context [for_each ?recs _ ?l1] =>
      destruct (upload_rows_prefix recs l1 [])
        as (o & l' & k & h & Hrun & Hrows & Hloc & Hlog & Hc & Hh & Hend);
        [reflexivity|]
  end.
  rewrite Hrun. simpl in Hloc, Hlog, Hc, Hh.
  assert (forall tail,
            inserted tail = [] ->
            inserted (Called SqliteSelect true :: Called MysqlConnect true
                        :: h ++ tail) = inserted h) as Hframe.
  { intros tail Htail.
    change (inserted (h ++ tail) = inserted h).
    by rewrite inserted_app, Htail, app_nil_r. }
  destruct Hend as [(-> & -> & Hids) | [[e ->] Hnot]].
  - simpl. rewrite Hc.
    destruct (mysql_commit_ok env); simpl.
    + rewrite Hids. simpl.
      destruct (sqlite_write_ok env); simpl.
      * eexists _, _, _. split; [reflexivity|]. simpl.
        rewrite Hh, Hlog, <- !app_assoc. simpl.
        split; [reflexivity|]. rewrite !Hframe by reflexivity.
        split; [exact Hrows|]. by intros.
      * eexists _, _, _. split; [reflexivity|]. simpl.
        rewrite Hh, Hlog, <- !app_assoc. simpl.
        split; [reflexivity|]. rewrite !Hframe by reflexivity.
        split; [exact Hrows|]. by intros.
    + eexists _, _, _. split; [reflexivity|]. simpl.
      rewrite Hh, Hlog, <- !app_assoc. simpl.
      split; [reflexivity|]. rewrite !Hframe by reflexivity.
      split; [exact Hrows|]. discriminate.
  - simpl. eexists _, _, _. split; [reflexivity|]. simpl.
    rewrite Hh, Hlog, <- !app_assoc. simpl.
    split; [reflexivity|]. rewrite !Hframe by reflexivity.
    split; [exact Hrows|]. intros _ _ Hall. contradiction.
Qed.


(** C6. With N <= 50 unsynced rows, a reachable central store that accepts
    every insert and the commit, and a working local store, one call to
    [sync_to_mysql] adds exactly N rows to the central table (the uploads of
    the N rows, in order) and sets [synced] on exactly those N local rows;
    the local update is issued after the central commit has succeeded. *)
Theorem sync_uploads_and_marks_all (w : world) (N : nat) :
  length (unsynced w) = N ->
  N <= 50 ->
  sqlite_read_ok env = true ->
  sqlite_write_ok env = true ->
  mysql_connect_ok env = true ->
  Forall (accepted env) (unsynced w) ->
  mysql_commit_ok env = true ->
  exists w' rows,
    sync_to_mysql env w = (Ok tt, w')
    /\ Forall2 (fun r row => central_row env r = Some row) (unsynced w) rows
    /\ length rows = N
    /\ attendance_log w' = attendance_log w ++ rows
    /\ local_attendance w'
       = map (fun r => if synced r then r else set_synced true r)
             (local_attendance w)
    /\ length (filter (fun r => synced r = false) (local_attendance w')) = 0
    /\ (N = 0 -> history w' = history w ++ [Called SqliteSelect true])
    /\ (0 < N ->
        history w'
        = history w
          ++ [Called SqliteSelect true; Called MysqlConnect true]
          ++ map (fun row => Called (MysqlInsert row) true) rows
          ++ [Called MysqlCommit true; Called MysqlClose true;
              Called (SqliteUpdate (map id (unsynced w))) true]).
Proof.
  intros HN Hle Hread Hwrite Hconn Hacc Hcommit.
  assert (forall t : list attendance,
            length (filter (fun r => synced r = false)
                      (map (fun r => if synced r then r else set_synced true r) t))
            = 0) as Hnone.
  { induction t as [|r t IHt]; [reflexivity|]. simpl.
    rewrite filter_cons. destruct (synced r) eqn:Hs.
    - rewrite decide_False by (rewrite Hs; discriminate). exact IHt.
    - simpl. exact IHt. }
  assert (forall t : list attendance,
            filter (fun r => synced r = false) t = [] ->
            map (fun r => if synced r then r else set_synced true r) t = t)
    as Hsame.
  { induction t as [|r t IHt]; [reflexivity|]. rewrite filter_cons.
    destruct (synced r) eqn:Hs.
    - rewrite decide_False by discriminate. intros Ht.
      simpl. rewrite Hs. by rewrite IHt.
    - rewrite decide_True by reflexivity. discriminate. }
  unfold sync_to_mysql, def, try_except, sqlite_select_unsynced,
    mysql_connect, mysql_commit, mysql_close, sqlite_mark_synced, pass.
  unfold bind, get, modify, return_, raise, ret.
  simpl. rewrite Hread. simpl.
  fold (unsynced w). rewrite take_ge by lia.
  destruct (unsynced w) as [|r0 records] eqn:Hu.
  - simpl in HN. subst N. eexists _, []. split; [reflexivity|]. simpl.
    repeat split; auto.
    + by rewrite app_nil_r.
    + symmetry. by apply Hsame.
    + unfold unsynced in Hu. by rewrite Hu.
    + lia.
  - rewrite Hconn. simpl.
    match goal with
    | |- context [for_each ?recs _ ?l1] =>
        destruct (upload_rows_accepted recs l1 [])
          as (rows & l' & Hrun & Hrows & Hloc & Hseq & Hlog & Hc & Hh & Hids);
          [reflexivity | assumption |]
    end.
    rewrite Hrun. simpl in *. rewrite Hc, Hcommit. simpl.
    rewrite Hids. simpl. rewrite Hwrite. simpl.
    eexists _, rows. split; [reflexivity|]. simpl.
    rewrite Hloc, Hlog, Hh.
    split; [assumption|]. split.
    { apply Forall2_length in Hrows. simpl in Hrows. lia. }
    change (id r0 :: map id records) with (map id (r0 :: records)).
    rewrite <- Hu. unfold unsynced. rewrite mark_unsynced.
    repeat split; auto.
    + lia.
    + intros _. by rewrite <- !app_assoc.
Qed.

(** Neither method disturbs the order of the ids. *)
Lemma log_attendance_keeps_order (device_id name : string) (w : world) :
  ledger_ordered w ->
  ledger_ordered (snd (log_attendance env device_id name w)).
Proof.
  intros [Hsorted Hbound].
  unfold log_attendance, def, try_except, sqlite_insert.
  unfold bind, get, modify, return_, raise. simpl.
  destruct (sqlite_write_ok env); simpl; [|by split].
  unfold ledger_ordered. simpl. rewrite map_app. simpl. split.
  - apply StronglySorted_app_2; [|assumption|repeat constructor].
    intros i j Hi Hj. apply list_elem_of_singleton in Hj as ->.
    rewrite Forall_forall in Hbound. specialize (Hbound i Hi). lia.
  - apply Forall_app. split; [|repeat constructor; lia].
    eapply Forall_impl; [exact Hbound|]. simpl. intros; lia.
Qed.

Lemma sync_to_mysql_keeps_ids (w : world) :
  map id (local_attendance (snd (sync_to_mysql env w)))
  = map id (local_attendance w)
  /\ sqlite_sequence (snd (sync_to_mysql env w)) = sqlite_sequence w.
Proof.
  assert (forall (ids : list Z) (t : list attendance),
            map id (map (fun r => if bool_decide (id r ∈ ids)
                                  then set_synced true r else r) t)
            = map id t) as Hmark.
  { intros ids t. rewrite map_map. apply map_ext. intros r.
    by case_bool_decide. }
  unfold sync_to_mysql, def, try_except, sqlite_select_unsynced,
    mysql_connect, mysql_commit, mysql_close, sqlite_mark_synced, pass.
  unfold bind, get, modify, return_, raise, ret.
  simpl.
  destruct (sqlite_read_ok env); simpl; [|simpl; by split].
  destruct (take 50 _) as [|r0 records]. { simpl. by split. }
  destruct (mysql_connect_ok env); simpl. 2:{ simpl; by split. }
  match goal with
  | |- context [for_each ?recs _ ?l1] =>
      destruct (upload_rows_prefix recs l1 [])
        as (o & l' & k & h & Hrun & _ & Hloc & _ & Hc & _ & Hend);
        [reflexivity|]
  end.
  rewrite Hrun.
  assert (sqlite_sequence (db l') = sqlite_sequence w) as Hseq.
  { revert Hrun. clear. generalize (r0 :: records) as recs.
    intros recs.
    match goal with
    | |- for_each _ _ ?l1 = _ -> _ =>
        change (sqlite_sequence w) with (sqlite_sequence (db l1));
        generalize l1
    end.
    induction recs as [|r recs IH]; intros l1; unfold for_each.
    - by intros [= _ <-].
    - fold (for_each (S := locals) (R := unit) recs (upload_row env)).
      unfold upload_row at 1, mysql_insert.
      unfold bind, call, get, modify, ret, raise.
      destruct (strftime env (timestamp r)); [|by intros [= _ <-]].
      destruct (m_conn l1); simpl; [|by intros [= _ <-]].
      destruct (mysql_insert_ok env _); simpl; [|by intros [= _ <-]].
      intros Hrun. by apply IH in Hrun. }
  simpl in Hloc, Hc.
  destruct Hend as [(-> & _ & Hids) | [[e ->] _]]; simpl.
  - rewrite Hc.
    destruct (mysql_commit_ok env); simpl; [|by rewrite Hloc, Hseq].
    rewrite Hids. simpl.
    destruct (sqlite_write_ok env); simpl; [|by rewrite Hloc, Hseq].
    by rewrite Hmark, Hloc, Hseq.
  - by rewrite Hloc, Hseq.
Qed.

Lemma sync_to_mysql_keeps_order (w : world) :
  ledger_ordered w -> ledger_ordered (snd (sync_to_mysql env w)).
Proof.
  unfold ledger_ordered.
  destruct (sync_to_mysql_keeps_ids w) as [-> ->]. tauto.
Qed.

End LedgerFacts.

(** Every ledger the device can be in lists its rows oldest first. *)
Lemma reachable_ledger_ordered (w : Database.world) :
  reachable w -> ledger_ordered w.
Proof.
  induction 1 as [|env dev nm w _ IH|env w _ IH].
  - split; constructor.
  - by apply log_attendance_keeps_order.
  - by apply sync_to_mysql_keeps_order.
Qed.

(** The batch a sync reads from such a ledger has increasing ids: it is
    oldest first. *)
Lemma batch_oldest_first (w : Database.world) :
  reachable w ->
  StronglySorted Z.lt (map Database.id (take 50 (unsynced w))).
Proof.
  intros Hreach. apply reachable_ledger_ordered in Hreach as [Hsorted _].
  apply StronglySorted_app_1_l with (map Database.id (drop 50 (unsynced w))).
  rewrite <- map_app, take_drop. unfold unsynced.
  induction (Database.local_attendance w) as [|r t IH]; [constructor|].
  simpl in Hsorted. apply StronglySorted_cons in Hsorted as [Hlt Hsorted].
  rewrite filter_cons. case_decide; [|by apply IH].
  simpl. apply StronglySorted_cons. split; [|by apply IH].
  rewrite Forall_forall in *. intros i Hi. apply Hlt.
  apply list_elem_of_fmap in Hi as (r' & -> & Hr').
  apply list_elem_of_filter in Hr' as [_ Hr'].
  apply list_elem_of_fmap. eauto.
Qed.

(** ** The per-frame pipeline *)

Section PipelineFacts.

Import Recognizer.

Variable cv : OpenCV.

Lemma same_setting_refl l : same_setting l l.
Proof. by repeat split. Qed.

Lemma same_setting_sym l1 l2 : same_setting l1 l2 -> same_setting l2 l1.
Proof. intros (? & ? & ?). repeat split; try congruence; tauto. Qed.

Lemma same_setting_trans l1 l2 l3 :
  same_setting l1 l2 -> same_setting l2 l3 -> same_setting l1 l3.
Proof.
  intros (? & ? & ?) (? & ? & ?). repeat split; try congruence; tauto.
Qed.

Lemma same_setting_fresh l : same_setting l (fresh l).
Proof. by repeat split. Qed.

(** The comparison reads the gallery and nothing else, and leaves the
    store alone. *)
Lemma compare_with_known_gallery {S1 S2 R}
    (self1 self2 : FaceRecognizer) q name (s1 : S1) (s2 : S2) :
  known_embeddings self1 = known_embeddings self2 ->
  known_names self1 = known_names self2 ->
  exists o : outcome R string,
    compare_with_known cv self1 q name s1 = (o, s1)
    /\ compare_with_known cv self2 q name s2 = (o, s2)
    /\ o <> Cont /\ (forall r, o <> Ret r).
Proof.
  intros He Hn. unfold compare_with_known. rewrite He, Hn.
  unfold bind, call, index, ret, raise.
  destruct (len (known_embeddings self2)) as [n|]; [|by eexists].
  destruct (0 <? n); [|by eexists].
  destruct (np_dot _ _ q) as [scores|]; [|by eexists].
  destruct (argmax scores) as [i|]; [|by eexists].
  destruct (scores !! i) as [m|]; [|by eexists].
  destruct (gt m _); [|by eexists].
  destruct (known_names self2 !! i); by eexists.
Qed.

Ltac done_effect :=
  unfold block_effect, same_setting; simpl; rewrite ?app_nil_r;
  repeat split; auto; try congruence; try tauto.

Ltac leaf := by (eexists _, _, _; repeat split; done_effect).

Lemma identify_two_stores aligner frame landmarks name (l1 l2 : locals) :
  same_setting l1 l2 ->
  exists o l1' l2',
    identify cv aligner frame landmarks name l1 = (o, l1')
    /\ identify cv aligner frame landmarks name l2 = (o, l2')
    /\ block_effect name l1 l1' o
    /\ block_effect name l2 l2' o.
Proof.
  intros (He & Hn & Hr).
  unfold identify, recognizer_setInput, recognizer_forward.
  unfold bind, call, index, ret, raise, continue, modify, get. simpl.
  destruct (Alignment.align _ _ _ _) as [[face_img|]|e]; simpl; [|leaf..].
  destruct (size face_img =? 0); simpl; [leaf|].
  destruct (shape face_img !! 0) as [rows|]; simpl; [|leaf].
  destruct (rows =? 112); simpl; [|leaf].
  destruct (shape face_img !! 1) as [cols|]; simpl; [|leaf].
  destruct (cols =? 112); simpl; [|leaf].
  destruct (blobFromImage cv face_img) as [[blob|]|]; simpl; [|leaf..].
  destruct (size blob =? 0); simpl; [leaf|].
  destruct (recognizer (self l1)) as [net1|] eqn:Hr1,
           (recognizer (self l2)) as [net2|] eqn:Hr2; simpl;
    try (exfalso; clear -Hr; intuition congruence); [|leaf].
  destruct (setInput cv blob); simpl; [|leaf].
  destruct (forward cv blob) as [[embedding|]|]; simpl; [|leaf..].
  destruct (fsize embedding =? 0); simpl; [leaf|].
  destruct (normalize cv embedding) as [embedding_norm|]; simpl; [|leaf].
  match goal with
  | |- context [compare_with_known _ ?s1 _ _ ?x1 = _ /\
                compare_with_known _ ?s2 _ _ ?x2 = _ /\ _] =>
      destruct (compare_with_known_gallery (R := results)
                  s1 s2 embedding_norm name x1 x2)
        as (o & H1 & H2 & Hcont & Hret); [exact He | exact Hn |]
  end.
  rewrite H1, H2. exists o. eexists _, _.
  split; [reflexivity|]. split; [reflexivity|].
  destruct o; try congruence; done_effect.
Qed.

Ltac done_appended :=
  unfold appended, same_setting, append; simpl; rewrite ?app_nil_r;
  repeat split; auto; try congruence; try tauto.

Lemma process_face_two_stores aligner frame face (l1 l2 : locals) :
  same_setting l1 l2 ->
  exists r o l1' l2',
    process_face cv aligner frame face l1 = (o, l1')
    /\ process_face cv aligner frame face l2 = (o, l2')
    /\ (o = Val tt \/ o = Cont)
    /\ appended r l1 l1'
    /\ appended r l2 l2'
    /\ (forall b landmarks,
          kept_detection cv face b landmarks ->
          r = Some (b, face_name cv aligner frame landmarks l1)).
Proof.
  intros Hsame. unfold process_face, try_except at 1 3.
  unfold bind, call, index, ret, raise, continue, modify. 
  destruct (map (astype_int cv) (take 4 face))
    as [|x [|y [|w_box [|h_box tl]]]] eqn:Hbox; simpl.
  1-4: by (exists None; eexists _, _, _; repeat split; try done_appended;
           intros b lm (? & ? & ? & ? & Hb & _); rewrite Hbox in Hb).
  destruct ((w_box <=? 0)%Z || (h_box <=? 0)%Z) eqn:Hpos; simpl.
  { exists None. eexists _, _, _. repeat split; try done_appended.
    intros b lm (? & ? & ? & ? & Hb & Hw & Hh & _).
    rewrite Hbox in Hb. injection Hb as -> -> -> -> ->.
    apply orb_prop in Hpos as [Hpos | Hpos]; apply Z.leb_le in Hpos; lia. }
  destruct (reshape_5_2 (take 10 (drop 4 face))) as [landmarks|] eqn:Hre;
    simpl.
  2:{ exists None. eexists _, _, _. repeat split; try done_appended.
      intros b lm (? & ? & ? & ? & _ & _ & _ & _ & Hre'). congruence. }
  assert (forall b lm, kept_detection cv face b lm ->
                       b = (x, y, w_box, h_box) /\ lm = landmarks) as Hkept.
  { intros b lm (? & ? & ? & ? & Hb & _ & _ & -> & Hre').
    rewrite Hbox in Hb. injection Hb as -> -> -> -> ->. split; congruence. }
  destruct aligner as [aligner|]; simpl.
  2:{ eexists (Some (_, _)), _, _, _. repeat split; try done_appended.
      intros b lm Hk. by destruct (Hkept b lm Hk) as [-> ->]. }
  unfold try_except.
  set (b := (x, y, w_box, h_box)).
  destruct (identify_two_stores aligner frame landmarks "Unknown"
              (set_face_locations (append b) l1)
              (set_face_locations (append b) l2))
    as (o & l1' & l2' & H1 & H2 & E1 & E2).
  { unfold same_setting in *; simpl; tauto. }
  destruct (identify_two_stores aligner frame landmarks "Unknown"
              l1 (set_face_locations (append b) l1))
    as (o' & l0 & l0' & H0 & H0' & _).
  { by repeat split. }
  assert (o' = o) as -> by congruence.
  assert (face_name cv (Some aligner) frame landmarks l1
          = match o with Val n => n | _ => "Unknown" end) as Hname.
  { unfold face_name. by rewrite H0. }
  rewrite H1, H2.
  destruct E1 as (S1 & L1 & N1 & R1), E2 as (S2 & L2 & N2 & R2).
  exists (Some (b, match o with Val n => n | _ => "Unknown" end)).
  assert (forall b' lm, kept_detection cv face b' lm ->
            Some (b, match o with Val n => n | _ => "Unknown" end)
            = Some (b', face_name cv (Some aligner) frame lm l1)) as Hr.
  { intros b' lm Hk. destruct (Hkept b' lm Hk) as [-> ->]. by rewrite Hname. }
  destruct S1 as (S1a & S1b & S1c), S2 as (S2a & S2b & S2c).
  unfold append in *.
  destruct o as [n|r| |e]; simpl in *; rewrite ?app_nil_r in *.
  - eexists _, _, _. repeat split; simpl; try congruence; try tauto; auto.
  - by destruct (R1 r).
  - eexists _, _, _. repeat split; simpl; try congruence; try tauto; auto.
  - eexists _, _, _. repeat split; simpl; try congruence; try tauto; auto.
Qed.

Lemma face_result_of_appended aligner frame face l0 r o l' :
  process_face cv aligner frame face (fresh l0) = (o, l') ->
  appended r (fresh l0) l' ->
  face_result cv aligner frame l0 face = r.
Proof.
  intros Hrun (_ & Hlocs & Hnames). unfold face_result.
  rewrite Hrun. simpl. rewrite Hlocs, Hnames.
  destruct r as [[b n]|]; reflexivity.
Qed.

(** In any store with the setting of [l0], a face adds what it adds when
    processed on its own, and the loop goes on. *)
Lemma process_face_appends aligner frame face (l l0 : locals) :
  same_setting l l0 ->
  exists o l',
    process_face cv aligner frame face l = (o, l')
    /\ (o = Val tt \/ o = Cont)
    /\ appended (face_result cv aligner frame l0 face) l l'.
Proof.
  intros Hsame.
  destruct (process_face_two_stores aligner frame face l (fresh l0))
    as (r & o & l' & l0' & Hrun & Hrun0 & Ho & Happ & Happ0 & _).
  { eapply same_setting_trans; [exact Hsame | apply same_setting_fresh]. }
  exists o, l'. rewrite (face_result_of_appended _ _ _ _ _ _ _ Hrun0 Happ0).
  split; [exact Hrun|]. split; [exact Ho | exact Happ].
Qed.

(** A kept detection is reported with its box and the name of the inner
    block. *)
Lemma face_result_kept aligner frame face (l0 : locals) b landmarks :
  kept_detection cv face b landmarks ->
  face_result cv aligner frame l0 face
  = Some (b, face_name cv aligner frame landmarks l0).
Proof.
  intros Hkept.
  destruct (process_face_two_stores aligner frame face l0 (fresh l0))
    as (r & o & l' & l0' & Hrun & Hrun0 & Ho & Happ & Happ0 & Hr).
  { apply same_setting_fresh. }
  rewrite (face_result_of_appended _ _ _ _ _ _ _ Hrun0 Happ0).
  by apply Hr.
Qed.

(** A kept detection with a failing step is reported as "Unknown". *)
Lemma face_name_of_failure aligner frame landmarks (l0 : locals) :
  step_fails cv aligner frame landmarks l0 ->
  face_name cv (Some aligner) frame landmarks l0 = "Unknown".
Proof.
  unfold face_name. intros [Halign | [-> | [e ->]]]; try reflexivity.
  unfold identify, bind, call, ret. by rewrite Halign.
Qed.

(** The loop never stops early, and adds the reports of its faces in
    order. *)
Lemma for_each_face_appends aligner frame faces (l l0 : locals) :
  same_setting l l0 ->
  exists l',
    for_each faces (process_face cv aligner frame) l = (Val tt, l')
    /\ same_setting l l'
    /\ face_locations l'
       = face_locations l ++ map fst (face_results cv aligner frame l0 faces)
    /\ face_names l'
       = face_names l ++ map snd (face_results cv aligner frame l0 faces).
Proof.
  revert l. induction faces as [|face faces IH]; intros l Hsame.
  - exists l. simpl. rewrite !app_nil_r. repeat split; auto; tauto.
  - destruct (process_face_appends aligner frame face l l0 Hsame)
      as (o & l1 & Hrun & Ho & Hs1 & Hlocs1 & Hnames1).
    destruct (IH l1) as (l' & Hloop & Hs' & Hlocs & Hnames).
    { eapply same_setting_trans; [apply same_setting_sym, Hs1 | exact Hsame]. }
    exists l'. simpl. rewrite Hrun.
    split; [by destruct Ho as [-> | ->]|].
    split; [eapply same_setting_trans; eassumption|].
    rewrite Hlocs, Hnames, Hlocs1, Hnames1. unfold face_results. simpl.
    destruct (face_result cv aligner frame l0 face) as [[b n]|]; simpl;
      rewrite <- ?app_assoc, ?app_nil_r; by split.
Qed.

Lemma face_results_app aligner frame (l0 : locals) faces1 faces2 :
  face_results cv aligner frame l0 (faces1 ++ faces2)
  = face_results cv aligner frame l0 faces1
    ++ face_results cv aligner frame l0 faces2.
Proof. apply omap_app. Qed.

(** C9. When a step of the per-face pipeline (alignment, blob, embedding,
    normalisation, matching) fails or raises for a kept detection, the loop
    still runs to its end and that face is reported with its box and the
    name "Unknown"; the faces before and after it are reported exactly as
    they are when any other face stands in its place. *)
Theorem face_failure_is_isolated
    (aligner : Alignment.StandardFaceAligner) (frame : ndarray)
    (pre post : list (list float)) (face : list float)
    (b : box) (landmarks : list (list float)) (l : locals) :
  kept_detection cv face b landmarks ->
  step_fails cv aligner frame landmarks l ->
  let results_of := face_results cv (Some aligner) frame l in
  (exists l',
      for_each (pre ++ face :: post) (process_face cv (Some aligner) frame) l
      = (Val tt, l')
      /\ face_locations l'
         = face_locations l
           ++ map fst (results_of pre ++ [(b, "Unknown")] ++ results_of post)
      /\ face_names l'
         = face_names l
           ++ map snd (results_of pre ++ [(b, "Unknown")] ++ results_of post))
  /\ (forall face',
        exists l',
          for_each (pre ++ face' :: post) (process_face cv (Some aligner) frame) l
          = (Val tt, l')
          /\ face_locations l'
             = face_locations l
               ++ map fst (results_of pre ++ results_of [face'] ++ results_of post)
          /\ face_names l'
             = face_names l
               ++ map snd (results_of pre ++ results_of [face'] ++ results_of post)).
Proof.
  intros Hkept Hfail results_of.
  assert (forall face',
            exists l',
              for_each (pre ++ face' :: post)
                (process_face cv (Some aligner) frame) l = (Val tt, l')
              /\ face_locations l'
                 = face_locations l
                   ++ map fst (results_of pre ++ results_of [face']
                               ++ results_of post)
              /\ face_names l'
                 = face_names l
                   ++ map snd (results_of pre ++ results_of [face']
                               ++ results_of post)) as Hany.
  { intros face'.
    destruct (for_each_face_appends (Some aligner) frame
                (pre ++ face' :: post) l l (same_setting_refl l))
      as (l' & Hrun & _ & Hlocs & Hnames).
    exists l'. split; [exact Hrun|].
    change (face' :: post) with ([face'] ++ post) in Hlocs, Hnames.
    rewrite !face_results_app in Hlocs, Hnames. by split. }
  split; [|exact Hany].
  destruct (Hany face) as (l' & Hrun & Hlocs & Hnames).
  exists l'. split; [exact Hrun|].
  assert (results_of [face] = [(b, "Unknown")]) as Hface.
  { unfold results_of, face_results. simpl.
    rewrite (face_result_kept _ _ _ _ _ _ Hkept).
    by rewrite (face_name_of_failure _ _ _ _ Hfail). }
  rewrite Hface in Hlocs, Hnames. by split.
Qed.

Local Arguments for_each : simpl never.

(** C10. [recognize_faces] always returns two lists of the same length:
    they are the boxes and the names of one list of reports, so the i-th
    name belongs to the i-th box.  Either nothing is reported, or the
    reports are those of the detected faces, in detection order, each face
    giving a box together with a name or neither. *)
Theorem recognize_faces_lists_are_parallel
    (aligner : option Alignment.StandardFaceAligner)
    (frame : option ndarray) (self0 : FaceRecognizer) :
  exists (reports : list (box * string)) (self' : FaceRecognizer),
    recognize_faces cv aligner frame self0
    = (Ok (map fst reports, map snd reports), self')
    /\ length (map fst reports) = length (map snd reports)
    /\ (reports = []
        \/ exists image faces,
            frame = Some image
            /\ detect cv image = Ok (Some faces)
            /\ reports
               = face_results cv aligner image
                   {| self := self0; face_locations := []; face_names := [] |}
                   faces).
Proof.
  assert (forall self',
            recognize_faces cv aligner frame self0 = (Ok ([], []), self') ->
            exists (reports : list (box * string)) (self' : FaceRecognizer),
              recognize_faces cv aligner frame self0
              = (Ok (map fst reports, map snd reports), self')
              /\ length (map fst reports) = length (map snd reports)
              /\ (reports = []
                  \/ exists image faces,
                      frame = Some image
                      /\ detect cv image = Ok (Some faces)
                      /\ reports
                         = face_results cv aligner image
                             {| self := self0; face_locations := [];
                                face_names := [] |} faces)) as Hempty.
  { intros self' Hrun. exists [], self'. rewrite Hrun. simpl. repeat split. by left. }
  unfold recognize_faces, recognize_faces_body, detector_setInputSize in *.
  unfold def, try_except, bind, call, return_, raise, ret, get, modify, pass in *.
  destruct frame as [image|]; [|by eapply Hempty].
  simpl in *.
  destruct (size image =? 0); simpl in *; [by eapply Hempty|].
  destruct (detector self0) as [d|] eqn:Hd; simpl in *; [|by eapply Hempty].
  destruct (recognizer self0) as [n|] eqn:Hn; simpl in *; [|by eapply Hempty].
  destruct (shape image) as [|h [|w rest]]; simpl in *;
    [by eapply Hempty | by eapply Hempty |].
  destruct ((h <? 10) || (w <? 10)); simpl in *; [by eapply Hempty|].
  rewrite Hd in *. simpl in *.
  destruct (setInputSize cv (w, h)); simpl in *; [|by eapply Hempty].
  destruct (detect cv image) as [[faces|]|] eqn:Hdet; simpl in *;
    [|by eapply Hempty..].
  destruct (0 <? length faces) eqn:Hlen; simpl in *; [|by eapply Hempty].
  clear Hempty.
  match goal with
  | |- context [for_each faces _ ?l1] =>
      destruct (for_each_face_appends aligner image faces l1
                  {| self := self0; face_locations := []; face_names := [] |})
        as (l' & Hrun & _ & Hlocs & Hnames);
        [unfold same_setting; simpl; tauto|]
  end.
  rewrite Hrun. simpl in *. rewrite Hlocs, Hnames.
  eexists _, _. split; [reflexivity|].
  split; [by rewrite !length_map|].
  right. by exists image, faces.
Qed.

End PipelineFacts.

(** ** Examples *)

Section Examples.

Import Recognizer Database.

(** The first of two tied gallery entries wins. *)
Example compare_tie_first_index :
  compare_with_known (S := unit) (R := unit) example_cv example_recognizer
    (array2 [[Finite (3 # 5); Finite (4 # 5)]]) "Unknown" tt
  = (Val "Alice", tt).
Proof. vm_compute. reflexivity. Qed.

(** Two entries whose exact dot products differ and whose binary32 scores
    are equal: the tie is among the scores as computed, and the first
    entry wins. *)
Example compare_rounding_tie_first_index :
  np_dot example_cv (known_embeddings rounding_tie) rounding_tie_query
  = Ok [Finite (3 # 4); Finite (3 # 4)]
  /\ compare_with_known (S := unit) (R := unit) example_cv rounding_tie
       rounding_tie_query "Unknown" tt
     = (Val "Alice", tt).
Proof. split; vm_compute; reflexivity. Qed.

(** The binary32 value nearest to 0.70 lies below the threshold, the next
    one above it. *)
Example compare_around_threshold :
  let one_entry x :=
    {| detector := None; recognizer := None;
       known_embeddings := array2 [[x; Finite 0]];
       known_names := ["Alice"] |} in
  compare_with_known (S := unit) (R := unit) example_cv
    (one_entry (Finite (7 # 10)))
    (array2 [[Finite 1; Finite 0]]) "Unknown" tt = (Val "Unknown", tt)
  /\ compare_with_known (S := unit) (R := unit) example_cv
       (one_entry (Finite (11744052 # 16777216)))
       (array2 [[Finite 1; Finite 0]]) "Unknown" tt = (Val "Alice", tt).
Proof. split; vm_compute; reflexivity. Qed.

(** A NaN among the scores is taken as the maximum and is not above the
    threshold. *)
Example compare_nan_score :
  compare_with_known (S := unit) (R := unit) example_cv
    {| detector := None; recognizer := None;
       known_embeddings := array2 [[Finite 1; Finite 0]; [NaN; Finite 0]];
       known_names := ["Alice"; "Bob"] |}
    (array2 [[Finite 1; Finite 0]]) "Unknown" tt = (Val "Unknown", tt).
Proof. vm_compute. reflexivity. Qed.

(** One frame: the first face is recognised, the second (NaN landmark) is
    reported as "Unknown", the third (empty box) is dropped. *)
Example recognize_three_faces :
  fst (recognize_faces example_cv (Some Alignment.aligner)
         (Some example_frame) example_recognizer)
  = Ok ([(10, 20, 50, 60); (100, 20, 40, 40)]%Z, ["Alice"; "Unknown"]).
Proof. vm_compute. reflexivity. Qed.

(** Two events logged offline, then one sync with the central store back:
    both rows arrive in insertion order and both flags are set. *)
Example sync_alice_then_bob :
  let w := snd (sync_to_mysql (example_env true true) two_logged) in
  map log_name (attendance_log w) = ["Alice"; "Bob"]
  /\ map synced (local_attendance w) = [true; true]
  /\ map Database.id (local_attendance w) = [1; 2]%Z.
Proof. repeat split. Qed.

(** The matcher on the gallery whose binary32 scores tie by rounding. *)
Example matcher_first_maximum_above_threshold_witness :
  exists i m name,
    first_maximum [Finite (3 # 4); Finite (3 # 4)] i m
    /\ known_names rounding_tie !! i = Some name
    /\ (less (Finite Config.RECOGNITION_THRESHOLD) m ->
        compare_with_known (S := unit) (R := unit) example_cv rounding_tie
          rounding_tie_query "Unknown" tt = (Val name, tt))
    /\ (at_most m (Finite Config.RECOGNITION_THRESHOLD) ->
        compare_with_known (S := unit) (R := unit) example_cv rounding_tie
          rounding_tie_query "Unknown" tt = (Val "Unknown", tt)).
Proof.
  apply (matcher_first_maximum_above_threshold (S := unit) (R := unit)
           example_cv rounding_tie rounding_tie_query tt).
  - vm_compute. reflexivity.
  - split; [discriminate|]. split; reflexivity.
  - repeat constructor; discriminate.
Defined.

(** Logging with the central store out of reach. *)
Example log_attendance_is_local_witness :
  exists w',
    log_attendance (example_env true false) "device-A" "Alice" empty_world
    = (Ok true, w')
    /\ local_attendance w'
       = local_attendance empty_world
         ++ [{| Database.id := sqlite_sequence empty_world + 1;
                timestamp := time_time (example_env true false);
                device_id := "device-A"; name := "Alice"; synced := false |}]
    /\ attendance_log w' = attendance_log empty_world
    /\ exists h, history w' = history empty_world ++ h
                 /\ filter (fun e => is_central e = true) h = [].
Proof.
  apply (log_attendance_is_local (example_env true false)). reflexivity.
Defined.

(** A sync attempt with the central store out of reach. *)
Example sync_unreachable_changes_nothing_witness :
  exists w',
    sync_to_mysql (example_env true false) two_logged = (Ok tt, w')
    /\ local_attendance w' = local_attendance two_logged
    /\ sqlite_sequence w' = sqlite_sequence two_logged
    /\ attendance_log w' = attendance_log two_logged
    /\ exists h, history w' = history two_logged ++ h /\ inserted h = [].
Proof.
  apply (sync_unreachable_changes_nothing (example_env true false)).
  reflexivity.
Defined.

(** A sync of two unsynced rows with both stores responding. *)
Example sync_uploads_and_marks_all_witness :
  exists w' rows,
    sync_to_mysql (example_env true true) two_logged = (Ok tt, w')
    /\ length rows = 2
    /\ attendance_log w' = attendance_log two_logged ++ rows
    /\ length (filter (fun r => synced r = false) (local_attendance w')) = 0.
Proof.
  destruct (sync_uploads_and_marks_all (example_env true true) two_logged 2)
    as (w' & rows & Hrun & _ & Hlen & Hlog & _ & Hnone & _).
  - reflexivity.
  - lia.
  - reflexivity.
  - reflexivity.
  - reflexivity.
  - repeat constructor; (eexists; split; reflexivity).
  - reflexivity.
  - by exists w', rows.
Defined.

(** Start-up without the detector file. *)
Example missing_models_degrade_to_unknown_witness :
  exists self0,
    __init__ example_cv
      {| yunet_path := Missing; mobilefacenet_path := Holds tt;
         embeddings_file := Holds (known_embeddings example_recognizer);
         names_file := Holds (known_names example_recognizer) |}
    = (Ok tt, self0)
    /\ forall self aligner frame,
        detector self = detector self0 ->
        recognizer self = recognizer self0 ->
        exists locations names,
          recognize_faces example_cv aligner frame self
          = (Ok (locations, names), self)
          /\ length locations = length names
          /\ Forall (fun name => name = "Unknown") names.
Proof.
  apply missing_models_degrade_to_unknown. by left.
Defined.

(** The face with the NaN landmark, between the two others. *)
Example face_failure_is_isolated_witness :
  exists l',
    for_each
      ([detection 10 20 50 60 good_landmarks (9 # 10)]
       ++ detection 100 20 40 40 bad_landmarks (8 # 10)
       :: [detection 150 150 0 30 good_landmarks (7 # 10)])
      (process_face example_cv (Some Alignment.aligner) example_frame)
      example_locals
    = (Val tt, l')
    /\ face_names l' = ["Alice"; "Unknown"].
Proof.
  destruct (face_failure_is_isolated example_cv Alignment.aligner
              example_frame
              [detection 10 20 50 60 good_landmarks (9 # 10)]
              [detection 150 150 0 30 good_landmarks (7 # 10)]
              (detection 100 20 40 40 bad_landmarks (8 # 10))
              (100, 20, 40, 40)%Z
              [[Finite 38; Finite 52]; [NaN; Finite 51];
               [Finite 56; Finite 72]; [Finite 42; Finite 92];
               [Finite 71; Finite 92]]
              example_locals)
    as [(l' & Hrun & _ & Hnames) _].
  - exists 100%Z, 20%Z, 40%Z, 40%Z. repeat split; lia.
  - left. reflexivity.
  - exists l'. split; [exact Hrun|]. exact Hnames.
Defined.

End Examples.

(** * Further properties *)

(** ** The aligner, in full *)

Section AlignmentMore.

Variable cv : Alignment.OpenCV.
Variable aligner : Alignment.StandardFaceAligner.

(** X1. [align] never raises: whatever the arguments are and whatever
    OpenCV does (raising included), the call returns an image or [None]. *)
Theorem align_never_raises
    (image : option ndarray) (landmarks : option (list (list float))) :
  exists r, Alignment.align cv aligner image landmarks = Ok r.
Proof.
  unfold Alignment.align, def, try_except, return_.
  destruct (Alignment.align_body cv aligner image landmarks tt)
    as [[[]|r| |e] []]; simpl; eauto.
Qed.

(** X2. [align] returns an image exactly when every check passes: both
    arguments are present, there are 5 landmarks, the image has at least 10
    rows and 10 columns, the landmarks are finite as float32, OpenCV finds a
    finite transform, and the warp to the aligner's output size gives a
    non-empty image; the image returned is that warp. *)
Theorem align_returns_image_iff
    (image : option ndarray) (landmarks : option (list (list float)))
    (a : ndarray) :
  Alignment.align cv aligner image landmarks = Ok (Some a)
  <-> exists img lms lms32 tform,
        image = Some img /\ landmarks = Some lms
        /\ length lms = 5
        /\ 10 <= extent img 0 /\ 10 <= extent img 1
        /\ array_float32 (Alignment.float32_of_double cv) lms = Ok lms32
        /\ all_isfinite lms32 = true
        /\ Alignment.estimateAffinePartial2D cv lms32
             (Alignment.reference_pts aligner) = Ok (Some tform)
        /\ all_isfinite tform = true
        /\ Alignment.warpAffine cv img tform
             (Alignment.desiredFaceWidth aligner,
              Alignment.desiredFaceHeight aligner) = Ok (Some a)
        /\ size a <> 0.
Proof.
  unfold Alignment.align, def, try_except, Alignment.align_body, extent.
  split.
  - destruct image as [img|], landmarks as [lms|]; try discriminate.
    unfold bind, index, call, return_, ret, raise.
    destruct (length lms =? 5) eqn:Hlen; simpl; [|discriminate].
    destruct (shape img) as [|h [|w rest]] eqn:Hshape; simpl; try discriminate.
    { destruct (h <? 10); discriminate. }
    destruct (h <? 10) eqn:Hh; simpl; [discriminate|].
    destruct (w <? 10) eqn:Hw; simpl; [discriminate|].
    destruct (array_float32 _ lms) as [lms32|] eqn:Ha; simpl; [|discriminate].
    destruct (all_isfinite lms32) eqn:Hfin; simpl; [|discriminate].
    destruct (Alignment.estimateAffinePartial2D _ _ _) as [[tform|]|] eqn:He;
      simpl; try discriminate.
    destruct (all_isfinite tform) eqn:Hfin'; simpl; [|discriminate].
    destruct (Alignment.warpAffine _ _ _ _) as [[a'|]|] eqn:Hwarp;
      simpl; try discriminate.
    destruct (size a' =? 0) eqn:Hsize; simpl; [discriminate|].
    intros [= <-]. exists img, lms, lms32, tform.
    apply Nat.eqb_eq in Hlen. apply Nat.ltb_ge in Hh, Hw.
    apply Nat.eqb_neq in Hsize. rewrite Hshape. simpl.
    repeat split; auto.
  - intros (img & lms & lms32 & tform & -> & -> & Hlen & Hh & Hw & Ha & Hfin
            & He & Hfin' & Hwarp & Hsize).
    unfold bind, index, call, return_, ret, raise.
    apply Nat.eqb_eq in Hlen. rewrite Hlen. simpl.
    destruct (shape img) as [|h [|w rest]]; simpl in Hh, Hw; try lia.
    simpl. apply Nat.ltb_ge in Hh, Hw. rewrite Hh. simpl. rewrite Hw. simpl.
    rewrite Ha. simpl. rewrite Hfin. simpl. rewrite He. simpl.
    rewrite Hfin'. simpl. rewrite Hwarp. simpl.
    apply Nat.eqb_neq in Hsize. rewrite Hsize. reflexivity.
Qed.

End AlignmentMore.

(** ** Loading the models and the gallery *)

Section LoadingMore.

Import Recognizer.

(** X3. [reload] never raises and never touches the models.  It returns
    [True] exactly when both gallery files load and the embeddings array
    has a length.  Whenever both files load the gallery is replaced by
    what they hold: the swap comes before the log line that takes
    [len()], so an array without a length (0-d) is installed although
    [reload] returns [False]. *)
Theorem reload_true_iff_both_load (fs : FileSystem) (self : FaceRecognizer) :
  exists b self',
    reload fs self = (Ok b, self')
    /\ detector self' = detector self
    /\ recognizer self' = recognizer self
    /\ (b = true
        <-> exists e n k, load (embeddings_file fs) = Ok e
                          /\ load (names_file fs) = Ok n
                          /\ len e = Ok k)
    /\ (forall e n,
          load (embeddings_file fs) = Ok e ->
          load (names_file fs) = Ok n ->
          known_embeddings self' = e /\ known_names self' = n).
Proof.
  unfold reload, def, try_except, bind, call, return_, pass, ret, modify, get.
  destruct (embeddings_file fs) as [|e1|e]; simpl.
  - exists false, self. repeat split; try discriminate.
    intros (? & ? & ? & ? & _). discriminate.
  - destruct (exists_ (names_file fs)); simpl;
      (exists false, self; repeat split; try discriminate;
       intros (? & ? & ? & ? & _); discriminate).
  - destruct (names_file fs) as [|e2|n]; simpl.
    + exists false, self. repeat split; try discriminate.
      intros (? & ? & ? & _ & ? & _). discriminate.
    + exists false, self. repeat split; try discriminate.
      intros (? & ? & ? & _ & ? & _). discriminate.
    + destruct (len e) as [k|err] eqn:Hlen; simpl.
      * eexists true, _. split; [reflexivity|]. simpl.
        split; [reflexivity|]. split; [reflexivity|]. split.
        { split; [|reflexivity]. intros _. by exists e, n, k. }
        intros ? ? [= <-] [= <-]. by split.
      * eexists false, _. split; [reflexivity|]. simpl.
        split; [reflexivity|]. split; [reflexivity|]. split.
        { split; [discriminate|].
          intros (? & ? & ? & [= <-] & _ & ?). congruence. }
        intros ? ? [= <-] [= <-]. by split.
Qed.

(** X4. The gallery a new recognizer starts with is all or nothing: it is
    what the two files hold when the constructor completes, both files
    load and the embeddings array has a length, and empty on both sides in
    every other case: a names file that fails to parse discards the
    embeddings already read, and so does an array without a length (0-d),
    on which the log line's [len()] raises inside the [try]. *)
Theorem init_gallery_all_or_nothing (cv : OpenCV) (fs : FileSystem) :
  let '(r, self) := __init__ cv fs in
  match r, load (embeddings_file fs), load (names_file fs) with
  | Ok _, Ok e, Ok n =>
      match len e with
      | Ok _ => known_embeddings self = e /\ known_names self = n
      | Raise _ => known_embeddings self = empty_list /\ known_names self = []
      end
  | _, _, _ => known_embeddings self = empty_list /\ known_names self = []
  end.
Proof.
  unfold __init__, _load_models, _load_database.
  unfold def, invoke, try_except, bind, call, return_, pass, ret, modify, get.
  destruct (negb (exists_ (yunet_path fs))
            || negb (exists_ (mobilefacenet_path fs))); simpl.
  2:{ destruct (FaceDetectorYN_create cv); simpl; [|done].
      destruct (readNetFromONNX cv); simpl; [|done].
      destruct (embeddings_file fs) as [|e1|e]; simpl; try done.
      - by destruct (exists_ (names_file fs)).
      - destruct (names_file fs) as [|e2|n]; simpl; try done.
        by destruct (len e). }
  destruct (embeddings_file fs) as [|e1|e]; simpl; try done.
  - by destruct (exists_ (names_file fs)).
  - destruct (names_file fs) as [|e2|n]; simpl; try done.
    by destruct (len e).
Qed.

(** X5. The constructor survives missing model files only.  When both
    files are present and OpenCV fails to load the detector or the network,
    the exception leaves the constructor; when both load, the recognizer
    holds both models. *)
Theorem init_with_model_files (cv : OpenCV) (fs : FileSystem) :
  exists_ (yunet_path fs) = true ->
  exists_ (mobilefacenet_path fs) = true ->
  match FaceDetectorYN_create cv, readNetFromONNX cv with
  | Raise e, _ => fst (__init__ cv fs) = Raise e
  | Ok _, Raise e => fst (__init__ cv fs) = Raise e
  | Ok d, Ok n =>
      fst (__init__ cv fs) = Ok tt
      /\ detector (snd (__init__ cv fs)) = Some d
      /\ recognizer (snd (__init__ cv fs)) = Some n
  end.
Proof.
  intros Hy Hm. unfold __init__, _load_models, _load_database.
  unfold def, invoke, try_except, bind, call, return_, pass, ret, modify.
  unfold get. rewrite Hy, Hm. simpl.
  destruct (FaceDetectorYN_create cv); simpl; [|done].
  destruct (readNetFromONNX cv); simpl; [|done].
  destruct (embeddings_file fs) as [|e1|e]; simpl; try done.
  - by destruct (exists_ (names_file fs)).
  - destruct (names_file fs) as [|e2|n]; simpl; try done.
    by destruct (len e).
Qed.

End LoadingMore.

(** ** The per-frame pipeline, in full *)

Section PipelineMore.

Import Recognizer.

Variable cv : OpenCV.

(** A name the inner block ends with is the one it was given or a name of
    the gallery, and the latter only against a non-empty gallery. *)
Lemma identify_value aligner frame landmarks name (l : locals) n :
  fst (identify cv aligner frame landmarks name l) = Val n ->
  n = name
  \/ (~ gallery_size (self l) 0 /\ n ∈ known_names (self l)).
Proof.
  unfold identify, recognizer_setInput, recognizer_forward.
  unfold bind, call, index, ret, raise, continue, modify, get. simpl.
  destruct (Alignment.align _ _ _ _) as [[face_img|]|e]; simpl;
    try (intros [= <-]; by left); try discriminate.
  destruct (size face_img =? 0); simpl; [intros [= <-]; by left|].
  destruct (shape face_img !! 0) as [rows|]; simpl; [|discriminate].
  destruct (rows =? 112); simpl; [|discriminate].
  destruct (shape face_img !! 1) as [cols|]; simpl; [|discriminate].
  destruct (cols =? 112); simpl; [|discriminate].
  destruct (blobFromImage cv face_img) as [[blob|]|]; simpl; try discriminate.
  destruct (size blob =? 0); simpl; [discriminate|].
  destruct (recognizer (self l)) as [net|]; simpl; [|discriminate].
  destruct (setInput cv blob); simpl; [|discriminate].
  destruct (forward cv blob) as [[embedding|]|]; simpl; try discriminate.
  destruct (fsize embedding =? 0); simpl; [discriminate|].
  destruct (normalize cv embedding) as [embedding_norm|]; simpl;
    [|discriminate].
  unfold compare_with_known, gallery_size.
  unfold bind, call, index, ret, raise. simpl.
  destruct (len (known_embeddings (self l))) as [k|] eqn:Hlen; simpl;
    [|discriminate].
  destruct (0 <? k) eqn:Hk; simpl; [|intros [= <-]; by left].
  destruct (np_dot _ _ _) as [scores|]; simpl; [|discriminate].
  destruct (argmax scores) as [i|]; simpl; [|discriminate].
  destruct (scores !! i) as [m|]; simpl; [|discriminate].
  destruct (gt m _); simpl; [|intros [= <-]; by left].
  destruct (known_names (self l) !! i) as [nm|] eqn:Hnm; simpl;
    [|discriminate].
  intros [= <-]. right. split.
  - intros [= ->]. discriminate.
  - apply list_elem_of_lookup. eauto.
Qed.

(** A face is kept and reported with its box, or dropped. *)
Lemma face_result_cases aligner frame (l : locals) face :
  (exists b landmarks,
      kept_detection cv face b landmarks
      /\ face_result cv aligner frame l face
         = Some (b, face_name cv aligner frame landmarks l))
  \/ face_result cv aligner frame l face = None.
Proof.
  destruct (map (astype_int cv) (take 4 face))
    as [|x [|y [|w_box [|h_box [|extra tl]]]]] eqn:Hbox.
  1-4: by (right; unfold face_result, process_face, try_except;
           unfold bind, call, index, ret, raise, continue, modify;
           rewrite Hbox).
  - destruct ((w_box <=? 0)%Z || (h_box <=? 0)%Z) eqn:Hpos.
    { right. unfold face_result, process_face, try_except.
      unfold bind, call, index, ret, raise, continue, modify.
      rewrite Hbox. simpl. by rewrite Hpos. }
    destruct (reshape_5_2 (take 10 (drop 4 face))) as [landmarks|] eqn:Hre.
    2:{ right. unfold face_result, process_face, try_except.
        unfold bind, call, index, ret, raise, continue, modify.
        rewrite Hbox. simpl. rewrite Hpos. simpl. by rewrite Hre. }
    left. exists (x, y, w_box, h_box), landmarks.
    assert (kept_detection cv face (x, y, w_box, h_box) landmarks) as Hkept.
    { exists x, y, w_box, h_box. apply orb_false_elim in Hpos as [Hw Hh].
      apply Z.leb_gt in Hw, Hh. by repeat split. }
    split; [exact Hkept|]. by apply face_result_kept.
  - exfalso.
    assert (length (map (astype_int cv) (take 4 face)) <= 4) as Hlen
      by (rewrite length_map, length_take; lia).
    rewrite Hbox in Hlen. simpl in Hlen. lia.
Qed.

(** What a report is: the box of a kept detection with the name it was
    given. *)
Lemma face_results_elem aligner frame (l : locals) faces b n :
  (b, n) ∈ face_results cv aligner frame l faces ->
  exists face landmarks,
    face ∈ faces /\ kept_detection cv face b landmarks
    /\ n = face_name cv aligner frame landmarks l.
Proof.
  unfold face_results. intros Hin.
  apply list_elem_of_omap in Hin as (face & Hface & Hres).
  destruct (face_result_cases aligner frame l face)
    as [(b' & lm & Hkept & Hres') | Hnone]; [|congruence].
  rewrite Hres' in Hres. injection Hres as -> <-. eauto.
Qed.

Lemma face_name_cases aligner frame landmarks (l : locals) :
  face_name cv aligner frame landmarks l = "Unknown"
  \/ (aligner <> None /\ ~ gallery_size (self l) 0
      /\ face_name cv aligner frame landmarks l ∈ known_names (self l)).
Proof.
  unfold face_name. destruct aligner as [a|]; [|by left].
  destruct (fst (identify cv a frame landmarks "Unknown" l)) as [n| | |] eqn:Hid;
    try (by left).
  apply identify_value in Hid as [-> | [Hne Hin]]; [by left|].
  right. by repeat split.
Qed.

Local Arguments for_each : simpl never.

(** The shape of every result of [recognize_faces]. *)
Ltac solve_empty :=
  match goal with
  | Hempty : forall _, _ -> _ |- _ =>
      apply Hempty; simpl; try reflexivity;
      repeat match goal with H : recognizer _ = _ |- _ => rewrite H end;
      tauto
  end.

Lemma recognize_faces_reports
    (aligner : option Alignment.StandardFaceAligner)
    (frame : option ndarray) (self0 : FaceRecognizer) :
  exists (reports : list (box * string)) (self' : FaceRecognizer),
    recognize_faces cv aligner frame self0
    = (Ok (map fst reports, map snd reports), self')
    /\ known_embeddings self' = known_embeddings self0
    /\ known_names self' = known_names self0
    /\ (recognizer self' = None <-> recognizer self0 = None)
    /\ (reports = []
        \/ exists image faces,
            frame = Some image
            /\ detect cv image = Ok (Some faces)
            /\ reports
               = face_results cv aligner image
                   {| self := self0; face_locations := []; face_names := [] |}
                   faces).
Proof.
  assert (forall self',
            known_embeddings self' = known_embeddings self0 ->
            known_names self' = known_names self0 ->
            (recognizer self' = None <-> recognizer self0 = None) ->
            exists (reports : list (box * string)) (self'' : FaceRecognizer),
              (Ok (@nil box, @nil string), self')
              = (Ok (map fst reports, map snd reports), self'')
              /\ known_embeddings self'' = known_embeddings self0
              /\ known_names self'' = known_names self0
              /\ (recognizer self'' = None <-> recognizer self0 = None)
              /\ (reports = []
                  \/ exists image faces,
                      frame = Some image
                      /\ detect cv image = Ok (Some faces)
                      /\ reports
                         = face_results cv aligner image
                             {| self := self0; face_locations := [];
                                face_names := [] |} faces)) as Hempty.
  { intros self' He Hn Hr. exists [], self'. repeat split; auto; tauto. }
  unfold recognize_faces, recognize_faces_body, detector_setInputSize.
  unfold def, try_except, bind, call, return_, raise, ret, get, modify, pass.
  destruct frame as [image|]; [|solve_empty].
  simpl.
  destruct (size image =? 0); simpl; [solve_empty|].
  destruct (detector self0) as [d|] eqn:Hd; simpl; [|solve_empty].
  destruct (recognizer self0) as [n|] eqn:Hn; simpl; [|solve_empty].
  destruct (shape image) as [|h [|w rest]]; simpl;
    [solve_empty | solve_empty |].
  destruct ((h <? 10) || (w <? 10)); simpl; [solve_empty|].
  rewrite Hd. simpl.
  destruct (setInputSize cv (w, h)); simpl; [|solve_empty].
  destruct (detect cv image) as [[faces|]|] eqn:Hdet; simpl;
    [|solve_empty..].
  destruct (0 <? length faces) eqn:Hlen; simpl; [|solve_empty].
  clear Hempty.
  match goal with
  | |- context [for_each faces _ ?l1] =>
      destruct (for_each_face_appends cv aligner image faces l1
                  {| self := self0; face_locations := []; face_names := [] |})
        as (l' & Hrun & (He & Hnm & Hrec) & Hlocs & Hnames);
        [unfold same_setting; simpl; tauto|]
  end.
  rewrite Hrun. simpl in *. rewrite Hlocs, Hnames.
  eexists _, _. split; [reflexivity|].
  rewrite <- He, <- Hnm. rewrite Hn in Hrec. repeat split; try tauto.
  right. by exists image, faces.
Qed.


(** X7. When the detector raises, on being given the frame size or on
    detection, the frame gives two empty lists and no exception leaves
    [recognize_faces]. *)
Theorem recognize_faces_survives_detector_failure
    (aligner : option Alignment.StandardFaceAligner)
    (image : ndarray) (self0 : FaceRecognizer) (h w : nat) rest :
  shape image = h :: w :: rest ->
  (exists e, setInputSize cv (w, h) = Raise e)
  \/ (exists e, detect cv image = Raise e) ->
  fst (recognize_faces cv aligner (Some image) self0) = Ok ([], []).
Proof.
  intros Hshape Hfail.
  unfold recognize_faces, recognize_faces_body, detector_setInputSize.
  unfold def, try_except, bind, call, return_, raise, ret, get, modify, pass.
  simpl.
  destruct (size image =? 0) eqn:Hsize; simpl; [reflexivity|].
  destruct (detector self0) as [d|] eqn:Hd; simpl; [|reflexivity].
  destruct (recognizer self0) as [n|] eqn:Hn; simpl; [|reflexivity].
  rewrite Hshape. simpl.
  destruct ((h <? 10) || (w <? 10)) eqn:Hsmall; simpl; [reflexivity|].
  rewrite Hd. simpl.
  destruct (setInputSize cv (w, h)) eqn:Hset; simpl; [|reflexivity].
  destruct Hfail as [[e He] | [e He]]; [discriminate|].
  rewrite He. reflexivity.
Qed.

(** X8. Every name [recognize_faces] reports is "Unknown" or a name of the
    gallery the recognizer held when it was called: the pipeline never
    makes a name up. *)
Theorem recognize_faces_names_from_gallery
    (aligner : option Alignment.StandardFaceAligner)
    (frame : option ndarray) (self0 self' : FaceRecognizer)
    (locations : list box) (names : list string) :
  recognize_faces cv aligner frame self0 = (Ok (locations, names), self') ->
  Forall (fun n => n = "Unknown" \/ n ∈ known_names self0) names.
Proof.
  intros Hrun.
  destruct (recognize_faces_reports aligner frame self0)
    as (reports & self'' & Hrep & _ & _ & _ & Hcases).
  rewrite Hrep in Hrun. injection Hrun as _ <- _.
  destruct Hcases as [-> | (image & faces & _ & _ & ->)]; [constructor|].
  apply Forall_forall. intros n Hn.
  apply list_elem_of_fmap in Hn as ([b n'] & -> & Hin). simpl.
  apply face_results_elem in Hin as (face & lm & _ & _ & ->).
  destruct (face_name_cases aligner image lm
              {| self := self0; face_locations := []; face_names := [] |})
    as [-> | (_ & _ & Hin)]; [by left | by right].
Qed.

(** X9. Without an aligner (its import failed) or against an empty
    gallery, every face [recognize_faces] reports is named "Unknown". *)
Theorem recognize_faces_all_unknown
    (aligner : option Alignment.StandardFaceAligner)
    (frame : option ndarray) (self0 self' : FaceRecognizer)
    (locations : list box) (names : list string) :
  aligner = None \/ gallery_size self0 0 ->
  recognize_faces cv aligner frame self0 = (Ok (locations, names), self') ->
  Forall (fun n => n = "Unknown") names.
Proof.
  intros Hcause Hrun.
  destruct (recognize_faces_reports aligner frame self0)
    as (reports & self'' & Hrep & _ & _ & _ & Hcases).
  rewrite Hrep in Hrun. injection Hrun as _ <- _.
  destruct Hcases as [-> | (image & faces & _ & _ & ->)]; [constructor|].
  apply Forall_forall. intros n Hn.
  apply list_elem_of_fmap in Hn as ([b n'] & -> & Hin). simpl.
  apply face_results_elem in Hin as (face & lm & _ & _ & ->).
  destruct (face_name_cases aligner image lm
              {| self := self0; face_locations := []; face_names := [] |})
    as [-> | (Hal & Hemb & _)]; [reflexivity|].
  simpl in Hemb. by destruct Hcause.
Qed.

(** X10. [recognize_faces] reads the gallery and never writes it: after
    any call the known embeddings and names are what they were, and a
    loaded network is still loaded. *)
Theorem recognize_faces_keeps_gallery
    (aligner : option Alignment.StandardFaceAligner)
    (frame : option ndarray) (self0 : FaceRecognizer) :
  let self' := snd (recognize_faces cv aligner frame self0) in
  known_embeddings self' = known_embeddings self0
  /\ known_names self' = known_names self0
  /\ (recognizer self' = None <-> recognizer self0 = None).
Proof.
  destruct (recognize_faces_reports aligner frame self0)
    as (reports & self'' & Hrep & He & Hn & Hr & _).
  rewrite Hrep. simpl. tauto.
Qed.

(** X11. Every box [recognize_faces] reports has positive width and
    height and is the integer part of the first four values of one of the
    detector's rows; there are at most as many boxes as detections. *)
Theorem recognize_faces_boxes_are_valid
    (aligner : option Alignment.StandardFaceAligner)
    (image : ndarray) (faces : list (list float))
    (self0 self' : FaceRecognizer)
    (locations : list box) (names : list string) :
  detect cv image = Ok (Some faces) ->
  recognize_faces cv aligner (Some image) self0
  = (Ok (locations, names), self') ->
  length locations <= length faces
  /\ Forall (fun b : box =>
               let '(x, y, w_box, h_box) := b in
               (0 < w_box)%Z /\ (0 < h_box)%Z
               /\ exists face,
                    face ∈ faces
                    /\ map (astype_int cv) (take 4 face) = [x; y; w_box; h_box])
       locations.
Proof.
  intros Hdet Hrun.
  destruct (recognize_faces_reports aligner (Some image) self0)
    as (reports & self'' & Hrep & _ & _ & _ & Hcases).
  rewrite Hrep in Hrun. injection Hrun as <- _ _.
  destruct Hcases as [-> | (image' & faces' & [= <-] & Hdet' & ->)].
  { simpl. split; [lia | constructor]. }
  rewrite Hdet in Hdet'. injection Hdet' as <-.
  split.
  - rewrite length_map. unfold face_results. clear.
    induction faces as [|face faces IH]; [reflexivity|]. simpl.
    unfold omap in IH.
    destruct (face_result cv aligner image _ face); simpl; lia.
  - apply Forall_forall. intros b Hb.
    apply list_elem_of_fmap in Hb as ([b' n] & -> & Hin). simpl.
    apply face_results_elem in Hin
      as (face & lm & Hface & (x & y & w_box & h_box & Hbox & Hw & Hh & -> & _)
          & _).
    repeat split; auto. by exists face.
Qed.

End PipelineMore.

(** ** The ledger, in full *)

Section LedgerMore.

Import Database.

Variable env : environment.

Local Arguments for_each : simpl never.

(** With nothing unsynced, a sync makes its SELECT and returns. *)
Lemma sync_nothing_unsynced (w : world) :
  unsynced w = [] ->
  sync_to_mysql env w
  = (Ok tt, record_event (Called SqliteSelect (sqlite_read_ok env)) w).
Proof.
  intros Hnone. unfold sync_to_mysql, def, try_except, sqlite_select_unsynced.
  unfold bind, get, modify, return_, raise, ret. simpl.
  destruct (sqlite_read_ok env); simpl; [|reflexivity].
  fold (unsynced w). rewrite Hnone. reflexivity.
Qed.

(** The upload loop leaves the AUTOINCREMENT counter alone. *)
Lemma sync_keeps_sequence_aux (recs : list attendance) (l1 : locals) o l' :
  for_each recs (upload_row env) l1 = (o, l') ->
  sqlite_sequence (db l') = sqlite_sequence (db l1).
Proof.
  revert l1. induction recs as [|r recs IH]; intros l1; unfold for_each.
  - by intros [= _ <-].
  - fold (for_each (S := locals) (R := unit) recs (upload_row env)).
    unfold upload_row at 1, mysql_insert.
    unfold bind, call, get, modify, ret, raise.
    destruct (strftime env (timestamp r)); [|by intros [= _ <-]].
    destruct (m_conn l1); simpl; [|by intros [= _ <-]].
    destruct (mysql_insert_ok env _); simpl; [|by intros [= _ <-]].
    intros Hrun. by apply IH in Hrun.
Qed.

(** Every way a sync can end: nothing changed in either table; or the
    batch was committed centrally and the local update failed; or the batch
    was committed and marked. *)
Lemma sync_outcomes (w : world) :
  exists w',
    sync_to_mysql env w = (Ok tt, w')
    /\ sqlite_sequence w' = sqlite_sequence w
    /\ ((local_attendance w' = local_attendance w
         /\ attendance_log w' = attendance_log w
         /\ (sqlite_read_ok env = false \/ batch w = []
             \/ mysql_connect_ok env = false
             \/ ~ Forall (accepted env) (batch w)
             \/ mysql_commit_ok env = false))
        \/ (sqlite_read_ok env = true /\ mysql_connect_ok env = true
            /\ mysql_commit_ok env = true /\ batch w <> []
            /\ exists rows,
                Forall2 (fun r row => central_row env r = Some row)
                  (batch w) rows
                /\ attendance_log w' = attendance_log w ++ rows
                /\ ((sqlite_write_ok env = false
                     /\ local_attendance w' = local_attendance w)
                    \/ (sqlite_write_ok env = true
                        /\ local_attendance w'
                           = mark_synced (map id (batch w))
                               (local_attendance w))))).
Proof.
  unfold batch.
  unfold sync_to_mysql, def, try_except, sqlite_select_unsynced,
    mysql_connect, mysql_commit, mysql_close, sqlite_mark_synced, pass.
  unfold bind, get, modify, return_, raise, ret.
  simpl. fold (unsynced w).
  destruct (sqlite_read_ok env); simpl.
  2:{ eexists. split; [reflexivity|]. simpl. split; [reflexivity|].
      left. auto. }
  fold (unsynced w).
  destruct (take 50 (unsynced w)) as [|r0 records] eqn:Hbatch.
  { simpl. eexists. split; [reflexivity|]. simpl. split; [reflexivity|].
    left. auto. }
  destruct (mysql_connect_ok env); simpl.
  2:{ eexists. split; [reflexivity|]. simpl. split; [reflexivity|].
      left. auto 6. }
  match goal with
  | |- context [for_each ?recs _ ?l1] =>
      destruct (upload_rows_prefix env recs l1 [])
        as (o & l' & k & h & Hrun & Hrows & Hloc & Hlog & Hc & Hh & Hend);
        [reflexivity|];
      pose proof (sync_keeps_sequence_aux recs l1 o l' Hrun) as Hseq
  end.
  rewrite Hrun. simpl in Hloc, Hlog, Hc, Hh, Hseq.
  destruct Hend as [(-> & -> & Hids) | [[e ->] Hnot]].
  - rewrite take_ge in Hrows by lia.
    simpl. rewrite Hc.
    destruct (mysql_commit_ok env); simpl.
    + rewrite Hids. simpl.
      destruct (sqlite_write_ok env); simpl.
      * eexists. split; [reflexivity|]. simpl.
        rewrite Hlog, Hloc, Hseq. split; [reflexivity|].
        right. do 3 (split; [reflexivity|]). split; [discriminate|].
        exists (inserted h). split; [exact Hrows|]. split; [reflexivity|].
        right. by split.
      * eexists. split; [reflexivity|]. simpl.
        rewrite Hlog, Hloc, Hseq. split; [reflexivity|].
        right. do 3 (split; [reflexivity|]). split; [discriminate|].
        exists (inserted h). split; [exact Hrows|]. split; [reflexivity|].
        left. by split.
    + eexists. split; [reflexivity|]. simpl.
      rewrite Hlog, Hloc, Hseq. split; [reflexivity|]. left. auto 8.
  - simpl. eexists. split; [reflexivity|]. simpl.
    rewrite Hlog, Hloc, Hseq. split; [reflexivity|]. left. auto 8.
Qed.

Lemma mark_synced_nil (table : list attendance) : mark_synced [] table = table.
Proof.
  unfold mark_synced. rewrite <- (List.map_id table) at 2.
  apply map_ext. intros r.
  by rewrite bool_decide_eq_false_2 by apply not_elem_of_nil.
Qed.

Lemma mark_synced_same_or_synced ids (table : list attendance) :
  Forall2 same_or_synced table (mark_synced ids table).
Proof.
  unfold mark_synced. induction table as [|r t IH]; [constructor|].
  simpl. constructor; [|exact IH].
  case_bool_decide; by repeat split.
Qed.

(** Marking the first [n] unsynced rows of a table with distinct ids
    leaves exactly the later unsynced rows unsynced. *)
Lemma mark_synced_unsynced (table : list attendance) n :
  NoDup (map id table) ->
  filter (fun r => synced r = false)
    (mark_synced (map id (take n (filter (fun r => synced r = false) table)))
       table)
  = drop n (filter (fun r => synced r = false) table).
Proof.
  revert n. induction table as [|r t IH]; intros n Hnodup.
  { by destruct n. }
  simpl in Hnodup. apply NoDup_cons in Hnodup as [Hfresh Hnodup].
  rewrite (filter_cons _ r t). destruct (synced r) eqn:Hs.
  - rewrite decide_False by discriminate.
    unfold mark_synced. simpl. rewrite filter_cons.
    rewrite decide_False.
    + apply IH, Hnodup.
    + case_bool_decide; simpl; rewrite ?Hs; discriminate.
  - rewrite decide_True by reflexivity.
    destruct n as [|m].
    + simpl. rewrite mark_synced_nil, filter_cons.
      by rewrite decide_True by assumption.
    + simpl. unfold mark_synced. simpl.
      rewrite bool_decide_eq_true_2 by apply list_elem_of_here.
      rewrite filter_cons. rewrite decide_False by (simpl; discriminate).
      rewrite <- (IH m Hnodup). f_equal. unfold mark_synced.
      apply map_ext_in. intros r' Hr'.
      assert (id r' <> id r) as Hne.
      { intros Heq. apply Hfresh. rewrite <- Heq.
        apply list_elem_of_fmap. exists r'. split; [reflexivity|].
        by apply list_elem_of_In. }
      case_bool_decide as H1; case_bool_decide as H2; try reflexivity.
      * apply elem_of_cons in H1 as [?|?]; [congruence | contradiction].
      * exfalso. apply H1. by apply list_elem_of_further.
Qed.

Lemma ledger_ordered_NoDup (w : world) :
  ledger_ordered w -> NoDup (map id (local_attendance w)).
Proof.
  intros [Hsorted _]. induction Hsorted as [|i l Hs IH Hlt]; constructor.
  - intros Hin. apply list_elem_of_In in Hin.
    rewrite List.Forall_forall in Hlt. specialize (Hlt _ Hin). lia.
  - exact IH.
Qed.

(** A sync against responding stores commits the batch and marks it. *)
Lemma sync_when_responding (w : world) :
  responds env w ->
  exists rows,
    Forall2 (fun r row => central_row env r = Some row) (batch w) rows
    /\ attendance_log (snd (sync_to_mysql env w)) = attendance_log w ++ rows
    /\ local_attendance (snd (sync_to_mysql env w))
       = mark_synced (map id (batch w)) (local_attendance w)
    /\ sqlite_sequence (snd (sync_to_mysql env w)) = sqlite_sequence w.
Proof.
  intros (Hread & Hwrite & Hconn & Hacc & Hcommit).
  destruct (sync_outcomes w) as (w' & -> & Hseq & Hcases). simpl.
  destruct Hcases
    as [(Hloc & Hlog & Hwhy)
       | (_ & _ & _ & _ & rows & Hrows & Hlog & Hmark)].
  - destruct Hwhy as [? | [Hempty | [? | [? | ?]]]]; try congruence;
      try contradiction.
    exists []. rewrite Hempty, Hloc, Hlog, app_nil_r. simpl.
    rewrite mark_synced_nil. repeat split; auto.
  - exists rows. destruct Hmark as [[? _] | [_ Hmark]]; [congruence|].
    by repeat split.
Qed.

(** X12. When the local store fails, [log_attendance] returns [False]
    instead of raising, and neither table changes: the one failure the
    caller is told about. *)
Theorem log_attendance_reports_local_failure
    (device_id name : string) (w : world) :
  sqlite_write_ok env = false ->
  exists w',
    log_attendance env device_id name w = (Ok false, w')
    /\ local_attendance w' = local_attendance w
    /\ sqlite_sequence w' = sqlite_sequence w
    /\ attendance_log w' = attendance_log w.
Proof.
  intros Hfail. unfold log_attendance, def, try_except, sqlite_insert.
  unfold bind, get, modify, return_, raise. simpl. rewrite Hfail. simpl.
  eexists. split; [reflexivity|]. by repeat split.
Qed.

(** X13. With no unsynced row, [sync_to_mysql] is a no-op that does not
    even try to connect: the only call it makes is its SELECT, and both
    tables stay as they are. *)
Theorem sync_without_backlog_makes_no_connection (w : world) :
  unsynced w = [] ->
  exists w',
    sync_to_mysql env w = (Ok tt, w')
    /\ local_attendance w' = local_attendance w
    /\ sqlite_sequence w' = sqlite_sequence w
    /\ attendance_log w' = attendance_log w
    /\ history w' = history w ++ [Called SqliteSelect (sqlite_read_ok env)].
Proof.
  intros Hnone. rewrite (sync_nothing_unsynced w Hnone).
  eexists. split; [reflexivity|]. by repeat split.
Qed.

(** X14. In every environment a sync keeps every local row: the table has
    the same rows in the same order with the same id, time, device and name,
    and a row that was synced stays synced.  Nothing is deleted and nothing
    is un-synced. *)
Theorem sync_never_deletes_or_unsyncs (w : world) :
  Forall2 same_or_synced
    (local_attendance w) (local_attendance (snd (sync_to_mysql env w))).
Proof.
  destruct (sync_outcomes w) as (w' & -> & _ & Hcases). simpl.
  assert (Forall2 same_or_synced (local_attendance w) (local_attendance w))
    as Hrefl.
  { apply Forall2_same_length_lookup. split; [reflexivity|].
    intros i r r' Hr Hr'. rewrite Hr in Hr'. injection Hr' as <-.
    by repeat split. }
  destruct Hcases
    as [(-> & _) | (_ & _ & _ & _ & rows & _ & _ & [[_ ->] | [_ ->]])];
    auto using mark_synced_same_or_synced.
Qed.

(** X15. In every environment the central table only grows: a sync keeps
    the rows it had and adds at most 50, each with its synced column set
    to 1. *)
Theorem sync_only_appends_centrally (w : world) :
  exists rows,
    attendance_log (snd (sync_to_mysql env w)) = attendance_log w ++ rows
    /\ length rows <= 50
    /\ Forall (fun row => log_synced row = true) rows.
Proof.
  destruct (sync_outcomes w) as (w' & -> & _ & Hcases). simpl.
  destruct Hcases
    as [(_ & -> & _) | (_ & _ & _ & _ & rows & Hrows & -> & _)].
  - exists []. rewrite app_nil_r. repeat split; [simpl; lia | constructor].
  - exists rows. split; [reflexivity|]. split.
    + apply Forall2_length in Hrows. rewrite <- Hrows. unfold batch.
      rewrite length_take. lia.
    + clear -Hrows. induction Hrows as [|r row ? ? Hrow _ IH]; constructor;
        [|exact IH].
      unfold central_row in Hrow.
      destruct (strftime env (timestamp r)); [|discriminate].
      by injection Hrow as <-.
Qed.

(** X16. A local row is marked only after the whole batch was committed
    centrally: in every environment, if a sync changed the local table then
    the connection, every insert of the batch and the commit had succeeded
    and the central table holds the uploads of the batch. *)
Theorem sync_marks_only_after_commit (w : world) :
  local_attendance (snd (sync_to_mysql env w)) <> local_attendance w ->
  mysql_connect_ok env = true
  /\ mysql_commit_ok env = true
  /\ exists rows,
      Forall2 (fun r row => central_row env r = Some row) (batch w) rows
      /\ attendance_log (snd (sync_to_mysql env w))
         = attendance_log w ++ rows.
Proof.
  destruct (sync_outcomes w) as (w' & -> & _ & Hcases). simpl.
  destruct Hcases
    as [(-> & _) | (_ & Hconn & Hcommit & _ & rows & Hrows & Hlog & _)];
    [done|].
  intros _. repeat split; auto. by exists rows.
Qed.

(** A sync against responding stores, on a table with distinct ids,
    uploads the 50 oldest unsynced rows and leaves the later ones. *)
Lemma sync_responding_batch (w : world) :
  responds env w ->
  NoDup (map id (local_attendance w)) ->
  unsynced (snd (sync_to_mysql env w)) = drop 50 (unsynced w)
  /\ exists rows,
      Forall2 (fun r row => central_row env r = Some row)
        (take 50 (unsynced w)) rows
      /\ attendance_log (snd (sync_to_mysql env w))
         = attendance_log w ++ rows.
Proof.
  intros Hresp Hnodup.
  destruct (sync_when_responding w Hresp) as (rows & Hrows & Hlog & Hloc & _).
  split; [|by exists rows].
  unfold unsynced at 1. rewrite Hloc. unfold batch, unsynced.
  by apply mark_synced_unsynced.
Qed.

(** X17. The batch limit: when both stores respond and the ids of the
    table are distinct, a sync uploads the 50 oldest unsynced rows in order
    and leaves exactly the later ones unsynced. *)
Theorem sync_takes_fifty_oldest (w : world) :
  responds env w ->
  NoDup (map id (local_attendance w)) ->
  unsynced (snd (sync_to_mysql env w)) = drop 50 (unsynced w)
  /\ exists rows,
      Forall2 (fun r row => central_row env r = Some row)
        (take 50 (unsynced w)) rows
      /\ attendance_log (snd (sync_to_mysql env w))
         = attendance_log w ++ rows.
Proof. exact (sync_responding_batch w). Qed.

End LedgerMore.

(** ** Logging and syncing, composed *)

Section LedgerComposition.

Import Database.

Variable env : environment.

(** X18. Draining the backlog: when both stores respond and every unsynced
    row is accepted, [k] syncs in a row upload the [50 * k] oldest unsynced
    rows, in insertion order across the batches, and leave exactly the later
    ones unsynced; so [k] syncs with [50 * k] at least the backlog empty
    it. *)
Theorem sync_times_drains_in_order (k : nat) (w : world) :
  sqlite_read_ok env = true ->
  sqlite_write_ok env = true ->
  mysql_connect_ok env = true ->
  mysql_commit_ok env = true ->
  Forall (accepted env) (unsynced w) ->
  ledger_ordered w ->
  unsynced (sync_times env k w) = drop (50 * k) (unsynced w)
  /\ exists rows,
      Forall2 (fun r row => central_row env r = Some row)
        (take (50 * k) (unsynced w)) rows
      /\ attendance_log (sync_times env k w) = attendance_log w ++ rows.
Proof.
  intros Hread Hwrite Hconn Hcommit. revert w.
  induction k as [|k IH]; intros w Hacc Hord.
  { rewrite Nat.mul_0_r. simpl. split; [reflexivity|].
    exists []. rewrite app_nil_r. split; [constructor | reflexivity]. }
  assert (responds env w) as Hresp.
  { repeat split; auto. unfold batch. by apply Forall_take. }
  destruct (sync_responding_batch env w Hresp (ledger_ordered_NoDup w Hord))
    as (Hleft & rows1 & Hrows1 & Hlog1).
  destruct (IH (snd (sync_to_mysql env w))) as (Hleft' & rows2 & Hrows2 & Hlog2).
  { rewrite Hleft. by apply Forall_drop. }
  { by apply sync_to_mysql_keeps_order. }
  simpl sync_times. rewrite Hleft', Hlog2, Hleft, Hlog1.
  replace (50 * S k) with (50 + 50 * k) by lia.
  split; [by rewrite drop_drop|].
  exists (rows1 ++ rows2). rewrite app_assoc. split; [|reflexivity].
  rewrite <- take_take_drop. apply Forall2_app; [exact Hrows1|].
  by rewrite <- Hleft.
Qed.

(** X19. A second sync right after one that emptied the backlog uploads
    nothing, whatever the stores do: with at most 50 unsynced rows and
    responding stores, the sync that follows changes neither table. *)
Theorem sync_after_full_sync_uploads_nothing (env2 : environment) (w : world) :
  responds env w ->
  ledger_ordered w ->
  length (unsynced w) <= 50 ->
  let w1 := snd (sync_to_mysql env w) in
  let w2 := snd (sync_to_mysql env2 w1) in
  unsynced w1 = []
  /\ attendance_log w2 = attendance_log w1
  /\ local_attendance w2 = local_attendance w1.
Proof.
  intros Hresp Hord Hlen w1 w2.
  destruct (sync_responding_batch env w Hresp (ledger_ordered_NoDup w Hord))
    as (Hleft & _).
  fold w1 in Hleft. rewrite drop_ge in Hleft by exact Hlen.
  split; [exact Hleft|].
  unfold w2. by rewrite (sync_nothing_unsynced env2 w1 Hleft).
Qed.

(** X20. At least once, not exactly once: if the central commit succeeds
    and the local update then fails, the rows stay unsynced locally, and
    the next successful sync uploads the same batch a second time, so the
    central table holds every row of the batch twice. *)
Theorem sync_retry_duplicates_rows (env2 : environment) (w : world) :
  sqlite_read_ok env = true ->
  mysql_connect_ok env = true ->
  Forall (accepted env) (batch w) ->
  mysql_commit_ok env = true ->
  sqlite_write_ok env = false ->
  batch w <> [] ->
  let w1 := snd (sync_to_mysql env w) in
  let w2 := snd (sync_to_mysql env2 w1) in
  responds env2 w1 ->
  local_attendance w1 = local_attendance w
  /\ exists rows1 rows2,
      Forall2 (fun r row => central_row env r = Some row) (batch w) rows1
      /\ Forall2 (fun r row => central_row env2 r = Some row) (batch w) rows2
      /\ attendance_log w1 = attendance_log w ++ rows1
      /\ attendance_log w2 = attendance_log w ++ rows1 ++ rows2.
Proof.
  intros Hread Hconn Hacc Hcommit Hwrite Hne w1 w2 Hresp.
  destruct (sync_outcomes env w) as (w' & Hrun & _ & Hcases).
  assert (w1 = w') as Hw1 by (unfold w1; by rewrite Hrun).
  destruct Hcases
    as [(_ & _ & Hwhy)
       | (_ & _ & _ & _ & rows1 & Hrows1 & Hlog1 & Hmark)].
  { destruct Hwhy as [? | [? | [? | [? | ?]]]]; congruence || contradiction. }
  destruct Hmark as [[_ Hloc] | [? _]]; [|congruence].
  rewrite <- Hw1 in Hlog1, Hloc.
  split; [exact Hloc|].
  destruct (sync_when_responding env2 w1 Hresp)
    as (rows2 & Hrows2 & Hlog2 & _).
  assert (batch w1 = batch w) as Hbatch.
  { unfold batch, unsynced. by rewrite Hloc. }
  rewrite Hbatch in Hrows2.
  exists rows1, rows2. repeat split; auto.
  unfold w2. by rewrite Hlog2, Hlog1, app_assoc.
Qed.

(** X21. Logging a list of events with a working local store appends one
    row per event, in order, with consecutive ids after the counter, the
    time of the clock and [synced] = 0; the counter advances by the number
    of events and the central table is not touched. *)
Theorem log_all_appends_in_order
    (events : list (string * string)) (w : world) :
  sqlite_write_ok env = true ->
  local_attendance (log_all env events w)
  = local_attendance w ++ logged_rows env (sqlite_sequence w) events
  /\ sqlite_sequence (log_all env events w)
     = (sqlite_sequence w + Z.of_nat (length events))%Z
  /\ attendance_log (log_all env events w) = attendance_log w.
Proof.
  intros Hok. revert w.
  induction events as [|[dev nm] events IH]; intros w.
  { simpl. rewrite app_nil_r. repeat split. lia. }
  simpl log_all. destruct (IH (snd (log_attendance env dev nm w)))
    as (Hloc & Hseq & Hlog).
  rewrite Hloc, Hseq, Hlog.
  unfold log_attendance, def, try_except, sqlite_insert.
  unfold bind, get, modify, return_, raise. simpl. rewrite Hok. simpl.
  rewrite <- app_assoc. repeat split. lia.
Qed.

(** X22. Round trip through both stores: an event logged on a device whose
    backlog is below 50, followed by a sync with both stores responding,
    arrives as the last row of the central table, with its device and name
    and the printed time of logging, and no row is left unsynced. *)
Theorem logged_event_reaches_central_store
    (device_id name : string) (w : world) :
  sqlite_write_ok env = true ->
  ledger_ordered w ->
  length (unsynced w) < 50 ->
  let w1 := snd (log_attendance env device_id name w) in
  let w2 := snd (sync_to_mysql env w1) in
  responds env w1 ->
  unsynced w2 = []
  /\ exists dt,
      strftime env (time_time env) = Ok dt
      /\ last (attendance_log w2)
         = Some {| log_timestamp := dt; log_device_id := device_id;
                   log_name := name; log_synced := true |}.
Proof.
  intros Hok Hord Hlen w1 w2 Hresp.
  set (r := {| id := sqlite_sequence w + 1; timestamp := time_time env;
               device_id := device_id; name := name; synced := false |}).
  assert (local_attendance w1 = local_attendance w ++ [r]) as Hloc1.
  { unfold w1, log_attendance, def, try_except, sqlite_insert.
    unfold bind, get, modify, return_, raise. simpl. by rewrite Hok. }
  assert (unsynced w1 = unsynced w ++ [r]) as Hun1.
  { unfold unsynced. rewrite Hloc1, filter_app. f_equal. }
  assert (ledger_ordered w1) as Hord1
    by (by apply log_attendance_keeps_order).
  destruct (sync_responding_batch env w1 Hresp
              (ledger_ordered_NoDup w1 Hord1))
    as (Hleft & rows & Hrows & Hlog).
  fold w2 in Hleft, Hlog.
  assert (length (unsynced w1) <= 50) as Hlen1.
  { rewrite Hun1, length_app. simpl. lia. }
  rewrite drop_ge in Hleft by exact Hlen1.
  split; [exact Hleft|].
  rewrite take_ge in Hrows by exact Hlen1. rewrite Hun1 in Hrows.
  apply Forall2_app_inv_l in Hrows
    as (rows0 & rows1 & _ & Hlast & ->).
  apply Forall2_cons_inv_l in Hlast as (row & tl & Hrow & Htl & ->).
  apply Forall2_nil_inv_l in Htl as ->.
  unfold central_row in Hrow. simpl in Hrow.
  destruct (strftime env (time_time env)) as [dt|]; [|discriminate].
  exists dt. split; [reflexivity|].
  injection Hrow as <-. by rewrite Hlog, app_assoc, last_snoc.
Qed.

End LedgerComposition.

(** X23. In every ledger the device can reach from an empty one by logging
    and syncing, the ids are distinct, increase along the table, and none
    exceeds the AUTOINCREMENT counter: an id is never reused. *)
Theorem reachable_ids_are_distinct_and_increasing (w : Database.world) :
  reachable w ->
  NoDup (map Database.id (Database.local_attendance w))
  /\ StronglySorted Z.lt (map Database.id (Database.local_attendance w))
  /\ Forall (fun i => (i <= Database.sqlite_sequence w)%Z)
       (map Database.id (Database.local_attendance w)).
Proof.
  intros Hreach. apply reachable_ledger_ordered in Hreach as Hord.
  split; [by apply ledger_ordered_NoDup | exact Hord].
Qed.

(** ** The local configuration file *)

Section ConfigFacts.

Import LocalConfig ConfigureNetwork.

(** What the override does with a JSON object. *)
Lemma load_local_config_object (members : gmap string json) :
  load_local_config (Recognizer.Holds (JObject members)) = overridden members.
Proof.
  unfold load_local_config, def, try_except, override, overridden.
  unfold bind, call, modify, pass, ret. simpl.
  destruct (members !! "MYSQL_HOST"), (members !! "MYSQL_USER"),
    (members !! "MYSQL_PASSWORD"), (members !! "MYSQL_DB"),
    (members !! "MQTT_BROKER"), (members !! "DEVICE_ID"); reflexivity.
Qed.


(** X25. Whatever the local file holds, it can replace only MYSQL_HOST,
    MYSQL_USER, MYSQL_PASSWORD, MYSQL_DB, MQTT_BROKER and DEVICE_ID: from a
    JSON object each of these takes the value of its key when the key is
    present, with no check of the value's type, and every other setting
    (ports, thresholds, server address, topic) keeps its default; two
    objects that agree on the six keys give the same settings. *)
Theorem local_config_overrides_six_keys (members : gmap string json) :
  load_local_config (Recognizer.Holds (JObject members)) = overridden members
  /\ forall members' : gmap string json,
      (forall key,
          key ∈ ["MYSQL_HOST"; "MYSQL_USER"; "MYSQL_PASSWORD"; "MYSQL_DB";
                 "MQTT_BROKER"; "DEVICE_ID"] ->
          members' !! key = members !! key) ->
      load_local_config (Recognizer.Holds (JObject members'))
      = load_local_config (Recognizer.Holds (JObject members)).
Proof.
  split; [apply load_local_config_object|].
  intros members' Hagree. rewrite !load_local_config_object.
  unfold overridden.
  rewrite !Hagree; [reflexivity|..]; apply list_elem_of_In; simpl; tauto.
Qed.

(** What the wizard does when the file can be taken as a dict. *)
Lemma main_with_dict (a : answers) (writable : bool)
    (f : Recognizer.file json) (members : gmap string json) :
  (f = Recognizer.Missing /\ members = ∅)
  \/ ((exists e, f = Recognizer.Corrupt e) /\ members = ∅)
  \/ f = Recognizer.Holds (JObject members) ->
  main a writable f
  = if String.eqb (new_ip a) "" then (Ok tt, f)
    else if writable then
      (Ok tt,
       Recognizer.Holds
         (JObject
            (if String.eqb (pw a) ""
             then <["MYSQL_HOST" := JString (new_ip a)]> members
             else <["MYSQL_PASSWORD" := JString (pw a)]>
                    (<["MYSQL_HOST" := JString (new_ip a)]> members))))
    else (Raise OSError, f).
Proof.
  intros Hf. unfold main, def, try_except, dict_get, dict_setitem, json_dump.
  unfold bind, call, modify, get, pass, ret, raise.
  destruct Hf as [[-> ->] | [[[e ->] ->] | ->]]; simpl;
    destruct (String.eqb (new_ip a) ""); simpl; try reflexivity;
    destruct (String.eqb (pw a) ""); simpl;
    destruct writable; reflexivity.
Qed.

(** X26. When the existing file parses to something that is not a JSON
    object, the wizard raises [AttributeError] at its first report, before
    any question is asked, and the file is left as it is. *)
Theorem wizard_crashes_on_non_object (a : answers) (writable : bool) (v : json) :
  (forall members, v <> JObject members) ->
  main a writable (Recognizer.Holds v)
  = (Raise AttributeError, Recognizer.Holds v).
Proof.
  intros Hno. unfold main, def, try_except, dict_get, dict_setitem, json_dump.
  unfold bind, call, modify, get, pass, ret, raise. simpl.
  destruct v as [|b|q|s|items|members]; try reflexivity.
  by destruct (Hno members).
Qed.

(** X27. An empty answer to the first prompt changes nothing: the wizard
    returns without writing, also when the file is missing or
    unparsable. *)
Theorem wizard_empty_answer_keeps_file (a : answers) (writable : bool)
    (f : Recognizer.file json) :
  usable_by_wizard f ->
  new_ip a = "" ->
  main a writable f = (Ok tt, f).
Proof.
  intros Huse Hempty.
  assert (exists members,
            (f = Recognizer.Missing /\ members = ∅)
            \/ ((exists e, f = Recognizer.Corrupt e) /\ members = ∅)
            \/ f = Recognizer.Holds (JObject members)) as [members Hf].
  { destruct f as [|e|v]; [exists ∅; auto | exists ∅; eauto |].
    destruct (Huse v eq_refl) as [members ->]. exists members. auto. }
  rewrite (main_with_dict a writable f members Hf). by rewrite Hempty.
Qed.

(** X28. Round trip between the wizard and the settings module: after the
    wizard has saved a non-empty address, the module read again has
    MYSQL_HOST equal to that address, MYSQL_PASSWORD equal to the password
    typed (or what it was, when none was typed), and every other setting as
    it was before; an unparsable file is replaced by a fresh one. *)
Theorem wizard_then_config_round_trip (a : answers)
    (f : Recognizer.file json) :
  usable_by_wizard f ->
  new_ip a <> "" ->
  exists f',
    main a true f = (Ok tt, f')
    /\ load_local_config f'
       = let c := set_MYSQL_HOST (JString (new_ip a)) (load_local_config f) in
         if String.eqb (pw a) "" then c
         else set_MYSQL_PASSWORD (JString (pw a)) c.
Proof.
  intros Huse Hip.
  assert (exists members,
            ((f = Recognizer.Missing /\ members = ∅)
             \/ ((exists e, f = Recognizer.Corrupt e) /\ members = ∅)
             \/ f = Recognizer.Holds (JObject members))
            /\ load_local_config f = overridden members)
    as (members & Hf & Hload).
  { destruct f as [|e|v].
    - exists ∅. split; [auto|]. reflexivity.
    - exists ∅. split; [eauto|]. reflexivity.
    - destruct (Huse v eq_refl) as [members ->]. exists members.
      split; [auto|]. apply load_local_config_object. }
  rewrite (main_with_dict a true f members Hf), Hload.
  apply String.eqb_neq in Hip. rewrite Hip.
  eexists. split; [reflexivity|].
  rewrite load_local_config_object. unfold overridden, set_MYSQL_HOST,
    set_MYSQL_PASSWORD.
  destruct (String.eqb (pw a) ""); simpl;
    by simplify_map_eq.
Qed.

End ConfigFacts.

(** ** Instances of the further properties *)

Section MoreExamples.

Import Recognizer Database LocalConfig ConfigureNetwork.

Lemma two_logged_reachable : reachable two_logged.
Proof. unfold two_logged. apply reachable_log, reachable_log, reachable_empty. Qed.

Lemma two_logged_responds : responds (example_env true true) two_logged.
Proof.
  repeat split; try reflexivity.
  repeat constructor; (eexists; split; reflexivity).
Qed.

Lemma log_all_reachable env events w :
  reachable w -> reachable (log_all env events w).
Proof.
  revert w. induction events as [|[device_id name] events IH]; intros w Hw;
    [exact Hw|].
  simpl. apply IH. by apply reachable_log.
Qed.

Lemma backlog_reachable n : reachable (backlog n).
Proof. apply log_all_reachable, reachable_empty. Qed.

Lemma example_env_accepts r : accepted (example_env true true) r.
Proof. eexists. split; reflexivity. Qed.

(** An embeddings file that holds a 0-d array.  Both files load; [reload]
    installs them and then returns [False], because [len()] raises in its
    log line; the constructor, whose handler runs on the same exception,
    ends with an empty gallery. *)
Example unsized_embeddings_array :
  let unsized := {| fshape := []; fdata := [Finite 1] |} in
  let fs := {| yunet_path := Holds tt; mobilefacenet_path := Holds tt;
               embeddings_file := Holds unsized;
               names_file := Holds ["Dave"] |} in
  reload fs example_recognizer
  = (Ok false,
     {| detector := detector example_recognizer;
        recognizer := recognizer example_recognizer;
        known_embeddings := unsized;
        known_names := ["Dave"] |})
  /\ known_embeddings (snd (__init__ example_cv fs)) = empty_list
  /\ known_names (snd (__init__ example_cv fs)) = [].
Proof. repeat split. Qed.

(** Both model files present and loading. *)
Example init_with_model_files_witness :
  fst (__init__ example_cv example_files) = Ok tt
  /\ detector (snd (__init__ example_cv example_files))
     = Some {| input_size := (320, 320) |}
  /\ recognizer (snd (__init__ example_cv example_files))
     = Some {| net_input := None |}.
Proof.
  exact (init_with_model_files example_cv example_files eq_refl eq_refl).
Defined.


(** A detector that raises. *)
Example recognize_faces_survives_detector_failure_witness :
  fst (recognize_faces failing_detector_cv (Some Alignment.aligner)
         (Some example_frame) example_recognizer) = Ok ([], []).
Proof.
  apply (recognize_faces_survives_detector_failure failing_detector_cv
           (Some Alignment.aligner) example_frame example_recognizer
           200 200 [3]).
  - reflexivity.
  - right. by exists cv2_error.
Defined.

(** The three example faces against the example gallery. *)
Example recognize_faces_names_from_gallery_witness :
  Forall (fun n => n = "Unknown" \/ n ∈ known_names example_recognizer)
    ["Alice"; "Unknown"].
Proof.
  apply (recognize_faces_names_from_gallery example_cv
           (Some Alignment.aligner) (Some example_frame) example_recognizer
           (snd (recognize_faces example_cv (Some Alignment.aligner)
                   (Some example_frame) example_recognizer))
           [(10, 20, 50, 60); (100, 20, 40, 40)]%Z).
  reflexivity.
Defined.

(** The three example faces without an aligner. *)
Example recognize_faces_all_unknown_witness :
  Forall (fun n => n = "Unknown") ["Unknown"; "Unknown"].
Proof.
  apply (recognize_faces_all_unknown example_cv None (Some example_frame)
           example_recognizer
           (snd (recognize_faces example_cv None (Some example_frame)
                   example_recognizer))
           [(10, 20, 50, 60); (100, 20, 40, 40)]%Z).
  - by left.
  - reflexivity.
Defined.

(** The boxes of the three example faces. *)
Example recognize_faces_boxes_are_valid_witness :
  length [(10, 20, 50, 60); (100, 20, 40, 40)]%Z <= 3.
Proof.
  eapply proj1.
  apply (recognize_faces_boxes_are_valid example_cv (Some Alignment.aligner)
           example_frame
           [detection 10 20 50 60 good_landmarks (9 # 10);
            detection 100 20 40 40 bad_landmarks (8 # 10);
            detection 150 150 0 30 good_landmarks (7 # 10)]
           example_recognizer
           (snd (recognize_faces example_cv (Some Alignment.aligner)
                   (Some example_frame) example_recognizer))
           [(10, 20, 50, 60); (100, 20, 40, 40)]%Z ["Alice"; "Unknown"]).
  - reflexivity.
  - reflexivity.
Defined.

(** Logging with the local store failing. *)
Example log_attendance_reports_local_failure_witness :
  exists w',
    log_attendance (example_env false false) "device-A" "Alice" two_logged
    = (Ok false, w')
    /\ local_attendance w' = local_attendance two_logged
    /\ sqlite_sequence w' = sqlite_sequence two_logged
    /\ attendance_log w' = attendance_log two_logged.
Proof.
  apply (log_attendance_reports_local_failure (example_env false false)).
  reflexivity.
Defined.

(** A sync of an empty ledger. *)
Example sync_without_backlog_makes_no_connection_witness :
  exists w',
    sync_to_mysql (example_env true true) empty_world = (Ok tt, w')
    /\ local_attendance w' = local_attendance empty_world
    /\ sqlite_sequence w' = sqlite_sequence empty_world
    /\ attendance_log w' = attendance_log empty_world
    /\ history w' = history empty_world ++ [Called SqliteSelect true].
Proof.
  apply (sync_without_backlog_makes_no_connection (example_env true true)).
  reflexivity.
Defined.

(** A sync that marks two rows. *)
Example sync_marks_only_after_commit_witness :
  mysql_connect_ok (example_env true true) = true
  /\ mysql_commit_ok (example_env true true) = true
  /\ exists rows,
      Forall2 (fun r row => central_row (example_env true true) r = Some row)
        (batch two_logged) rows
      /\ attendance_log (snd (sync_to_mysql (example_env true true) two_logged))
         = attendance_log two_logged ++ rows.
Proof.
  apply (sync_marks_only_after_commit (example_env true true) two_logged).
  intros H. vm_compute in H. discriminate H.
Defined.

(** One sync of a backlog of 60 rows, with both stores responding: the
    rows with ids 1 to 50 are uploaded, those with ids 51 to 60 stay
    unsynced. *)
Example sync_takes_fifty_oldest_witness :
  (length (unsynced (backlog 60)) = 60
   /\ map Database.id
        (unsynced (snd (sync_to_mysql (example_env true true) (backlog 60))))
      = [51; 52; 53; 54; 55; 56; 57; 58; 59; 60]%Z
   /\ length
        (attendance_log
           (snd (sync_to_mysql (example_env true true) (backlog 60))))
      = 50)
  /\ unsynced (snd (sync_to_mysql (example_env true true) (backlog 60)))
     = drop 50 (unsynced (backlog 60))
  /\ exists rows,
      Forall2 (fun r row => central_row (example_env true true) r = Some row)
        (take 50 (unsynced (backlog 60))) rows
      /\ attendance_log
           (snd (sync_to_mysql (example_env true true) (backlog 60)))
         = attendance_log (backlog 60) ++ rows.
Proof.
  split; [by vm_compute|].
  apply (sync_takes_fifty_oldest (example_env true true) (backlog 60)).
  - repeat split; try reflexivity.
    apply Forall_forall. intros r _. apply example_env_accepts.
  - apply ledger_ordered_NoDup, reachable_ledger_ordered, backlog_reachable.
Defined.

(** Two syncs of a backlog of 120 rows: the first uploads the rows with
    ids 1 to 50, the second those with ids 51 to 100, and the 20 rows
    with ids 101 to 120 stay unsynced. *)
Example sync_times_drains_in_order_witness :
  (length (unsynced (backlog 120)) = 120
   /\ map Database.id
        (unsynced (sync_times (example_env true true) 1 (backlog 120)))
      = map Z.of_nat (seq 51 70)
   /\ map Database.id
        (unsynced (sync_times (example_env true true) 2 (backlog 120)))
      = map Z.of_nat (seq 101 20)
   /\ length (attendance_log
                (sync_times (example_env true true) 2 (backlog 120)))
      = 100)
  /\ unsynced (sync_times (example_env true true) 2 (backlog 120))
     = drop (50 * 2) (unsynced (backlog 120))
  /\ exists rows,
      Forall2 (fun r row => central_row (example_env true true) r = Some row)
        (take (50 * 2) (unsynced (backlog 120))) rows
      /\ attendance_log (sync_times (example_env true true) 2 (backlog 120))
         = attendance_log (backlog 120) ++ rows.
Proof.
  split; [by vm_compute|].
  apply (sync_times_drains_in_order (example_env true true) 2 (backlog 120));
    try reflexivity.
  - apply Forall_forall. intros r _. apply example_env_accepts.
  - apply reachable_ledger_ordered, backlog_reachable.
Defined.

(** A second sync, with both stores out of reach. *)
Example sync_after_full_sync_uploads_nothing_witness :
  let w1 := snd (sync_to_mysql (example_env true true) two_logged) in
  let w2 := snd (sync_to_mysql (example_env false false) w1) in
  unsynced w1 = []
  /\ attendance_log w2 = attendance_log w1
  /\ local_attendance w2 = local_attendance w1.
Proof.
  apply (sync_after_full_sync_uploads_nothing (example_env true true)
           (example_env false false) two_logged).
  - exact two_logged_responds.
  - apply reachable_ledger_ordered, two_logged_reachable.
  - vm_compute. lia.
Defined.

(** A commit followed by a failing local update, then a good sync. *)
Example sync_retry_duplicates_rows_witness :
  let w1 := snd (sync_to_mysql read_only_env two_logged) in
  let w2 := snd (sync_to_mysql (example_env true true) w1) in
  local_attendance w1 = local_attendance two_logged
  /\ exists rows1 rows2,
      Forall2 (fun r row => central_row read_only_env r = Some row)
        (batch two_logged) rows1
      /\ Forall2 (fun r row => central_row (example_env true true) r = Some row)
           (batch two_logged) rows2
      /\ attendance_log w1 = attendance_log two_logged ++ rows1
      /\ attendance_log w2 = attendance_log two_logged ++ rows1 ++ rows2.
Proof.
  apply (sync_retry_duplicates_rows read_only_env (example_env true true)
           two_logged); try reflexivity.
  - repeat constructor; (eexists; split; reflexivity).
  - discriminate.
  - repeat split; try reflexivity.
    repeat constructor; (eexists; split; reflexivity).
Defined.

(** Two events logged on an empty ledger. *)
Example log_all_appends_in_order_witness :
  let events := [("device-A", "Alice"); ("device-A", "Bob")] in
  let env := example_env true false in
  local_attendance (log_all env events empty_world)
  = local_attendance empty_world
    ++ logged_rows env (sqlite_sequence empty_world) events
  /\ sqlite_sequence (log_all env events empty_world)
     = (sqlite_sequence empty_world + Z.of_nat (length events))%Z
  /\ attendance_log (log_all env events empty_world)
     = attendance_log empty_world.
Proof.
  apply (log_all_appends_in_order (example_env true false)). reflexivity.
Defined.

(** A third event logged after the two, then synced. *)
Example logged_event_reaches_central_store_witness :
  let env := example_env true true in
  let w1 := snd (log_attendance env "device-B" "Carol" two_logged) in
  let w2 := snd (sync_to_mysql env w1) in
  unsynced w2 = []
  /\ exists dt,
      strftime env (time_time env) = Ok dt
      /\ last (attendance_log w2)
         = Some {| log_timestamp := dt; log_device_id := "device-B";
                   log_name := "Carol"; log_synced := true |}.
Proof.
  apply (logged_event_reaches_central_store (example_env true true)
           "device-B" "Carol" two_logged).
  - reflexivity.
  - apply reachable_ledger_ordered, two_logged_reachable.
  - vm_compute. lia.
  - repeat split; try reflexivity.
    repeat constructor; (eexists; split; reflexivity).
Defined.

(** The ledger with two logged rows. *)
Example reachable_ids_are_distinct_and_increasing_witness :
  NoDup (map Database.id (local_attendance two_logged))
  /\ StronglySorted Z.lt (map Database.id (local_attendance two_logged))
  /\ Forall (fun i => (i <= sqlite_sequence two_logged)%Z)
       (map Database.id (local_attendance two_logged)).
Proof.
  apply reachable_ids_are_distinct_and_increasing, two_logged_reachable.
Defined.


(** A file holding an empty list. *)
Example wizard_crashes_on_non_object_witness :
  main example_answers true (Recognizer.Holds (JArray []))
  = (Raise AttributeError, Recognizer.Holds (JArray [])).
Proof.
  apply wizard_crashes_on_non_object. intros members H. discriminate H.
Defined.

(** No file, and an empty answer. *)
Example wizard_empty_answer_keeps_file_witness :
  main {| new_ip := ""; pw := "secret" |} true Recognizer.Missing
  = (Ok tt, Recognizer.Missing).
Proof.
  apply wizard_empty_answer_keeps_file.
  - intros v H. discriminate H.
  - reflexivity.
Defined.

(** No file, and an address typed. *)
Example wizard_then_config_round_trip_witness :
  exists f',
    main example_answers true Recognizer.Missing = (Ok tt, f')
    /\ load_local_config f'
       = let c := set_MYSQL_HOST (JString (new_ip example_answers))
                    (load_local_config Recognizer.Missing) in
         if String.eqb (pw example_answers) "" then c
         else set_MYSQL_PASSWORD (JString (pw example_answers)) c.
Proof.
  apply wizard_then_config_round_trip.
  - intros v H. discriminate H.
  - discriminate.
Defined.

End MoreExamples.
